(** * The USD lexer of pygments/lexers/usd.py

    A shallow embedding of [UsdLexer.tokens] (the rule table of the
    lexer for Pixar's Universal Scene Description format) together with
    the regular-expression matching it is written in, and the
    properties of the token stream it produces.

    Reading of the source.

    - A buffer is a list of 8-bit characters ([ascii]); the character
      classes below are the ASCII ranges of the classes of Python's [re]
      module.
    - The patterns are compiled with [re.MULTILINE]: [$] holds at the
      end of the buffer and before a line feed, [.] is every character
      but the line feed.
    - In the source the list that ends with the bracket rule is followed
      by a comma before the [+ [...]] that appends the remaining rules.
      The table is read as the concatenation of all the lists in the
      order they are written, which is the order the rules are numbered
      in the specification.
    - The vocabulary tables (KEYWORDS, SPECIAL_NAMES, COMMON_ATTRIBUTES,
      OPERATORS, TYPES) live in [_usd_builtins], the matching engine and
      the helpers [words] and [bygroups] in [pygments.lexer].  The tables
      are the fields of a [vocabulary] the lexer is parameterised by, and
      the engine follows the specification. *)

From Stdlib Require Import Ascii String List Arith Bool Lia.
Import ListNotations.

Local Open Scope nat_scope.
Local Open Scope list_scope.

(** ** Characters and buffers *)

Definition buffer := list ascii.

(** The characters of a string literal. *)
Definition str (s : string) : buffer := list_ascii_of_string s.

Definition code (c : ascii) : nat := nat_of_ascii c.

Definition in_range (lo hi : nat) (c : ascii) : bool :=
  (lo <=? code c) && (code c <=? hi).

Definition same (a : ascii) (c : ascii) : bool := Ascii.eqb a c.
Arguments same : simpl never.

Definition LF : ascii := ascii_of_nat 10.
Definition TAB : ascii := ascii_of_nat 9.
Definition SPACE : ascii := ascii_of_nat 32.

(** [[0-9]] *)
Definition digit (c : ascii) : bool := in_range 48 57 c.

(** [\w]: letters, digits and the underscore. *)
Definition word_char (c : ascii) : bool :=
  in_range 97 122 c || in_range 65 90 c || digit c || same "_"%char c.

(** [\s]: tab, line feed, vertical tab, form feed, carriage return, the
    four separators 28..31 and the space. *)
Definition space_char (c : ascii) : bool :=
  in_range 9 13 c || in_range 28 31 c || same SPACE c.

(** [[ \t]] *)
Definition blank_char (c : ascii) : bool := same SPACE c || same TAB c.

(** [.] without DOTALL. *)
Definition dot_char (c : ascii) : bool := negb (same LF c).

(** [s[i:j]] *)
Definition sub (s : buffer) (i j : nat) : buffer := firstn (j - i) (skipn i s).

(** ** Regular expressions

    The fragment of Python's pattern language the rule table uses.
    [Alt] is ordered, [Star true] is the greedy star, [Star false] the
    lazy one, [Grp n] is the n-th capturing group. *)

Inductive regex : Type :=
| Eps
| Cls (p : ascii -> bool)
| Seq (r1 r2 : regex)
| Alt (r1 r2 : regex)
| Star (greedy : bool) (r : regex)
| Grp (n : nat) (r : regex)
| Bnd      (* \b *)
| Eol      (* $ under MULTILINE *)
| Bos.     (* \A *)

Definition chr (a : ascii) : regex := Cls (same a).
Definition plus (r : regex) : regex := Seq r (Star true r).
Definition star (r : regex) : regex := Star true r.
Definition lazy_star (r : regex) : regex := Star false r.
Definition opt (r : regex) : regex := Alt r Eps.
Definition never : regex := Cls (fun _ => false).

Fixpoint lit (w : buffer) : regex :=
  match w with
  | [] => Eps
  | a :: w' => Seq (chr a) (lit w')
  end.

Fixpoint alts (rs : list regex) : regex :=
  match rs with
  | [] => never
  | r :: rs' => Alt r (alts rs')
  end.

(** Captures: the most recent binding of a group comes first. *)
Definition caps := list (nat * (nat * nat)).

Fixpoint group (n : nat) (c : caps) : option (nat * nat) :=
  match c with
  | [] => None
  | (m, span) :: c' => if n =? m then Some span else group n c'
  end.

Section Matching.

Variable s : buffer.

Definition char_at (i : nat) : option ascii := nth_error s i.

Definition word_at (i : nat) : bool :=
  match char_at i with
  | Some c => word_char c
  | None => false
  end.

(** [\b]: exactly one of the two neighbours is a word character. *)
Definition bnd (i : nat) : bool :=
  xorb (match i with 0 => false | S p => word_at p end) (word_at i).

(** [$]: at the end of the buffer or before a line feed. *)
Definition eol (i : nat) : bool :=
  match char_at i with
  | Some c => same LF c
  | None => true
  end.

Definition result := option (nat * caps).
Definition cont := nat -> caps -> result.

(** The iterations of a star.  The greedy star tries one more
    iteration before it hands over to the continuation, the lazy star
    hands over first.  An iteration has to consume a character; the
    body of every star in the rule table does. *)
Fixpoint star_loop (body : nat -> caps -> cont -> result) (greedy : bool)
         (k : cont) (fuel : nat) (i : nat) (c : caps) {struct fuel} : result :=
  let again (_ : unit) :=
    match fuel with
    | 0 => None
    | S fuel' =>
        body i c (fun j c' =>
                    if i <? j then star_loop body greedy k fuel' j c' else None)
    end in
  if greedy
  then match again tt with
       | Some res => Some res
       | None => k i c
       end
  else match k i c with
       | Some res => Some res
       | None => again tt
       end.

(** Backtracking matcher in continuation-passing style: [mt r i c k]
    matches [r] at offset [i] and hands every way of doing so, in
    Python's priority order, to [k] until [k] accepts. *)
Fixpoint mt (r : regex) (i : nat) (c : caps) (k : cont) {struct r} : result :=
  match r with
  | Eps => k i c
  | Cls p =>
      match char_at i with
      | Some a => if p a then k (S i) c else None
      | None => None
      end
  | Seq r1 r2 => mt r1 i c (fun j c' => mt r2 j c' k)
  | Alt r1 r2 =>
      match mt r1 i c k with
      | Some res => Some res
      | None => mt r2 i c k
      end
  | Star greedy r1 => star_loop (mt r1) greedy k (length s - i) i c
  | Grp n r1 => mt r1 i c (fun j c' => k j ((n, (i, j)) :: c'))
  | Bnd => if bnd i then k i c else None
  | Eol => if eol i then k i c else None
  | Bos => if i =? 0 then k i c else None
  end.

(** [pattern.match(text, pos)] *)
Definition rexmatch (r : regex) (i : nat) : result :=
  mt r i [] (fun j c => Some (j, c)).

End Matching.

Notation "a >> b" := (Seq a b) (at level 61, right associativity).

(** ** Token categories and spans *)

(** The token types the rule table names, and [Error], the category of
    the engine's one-character fallback. *)
Inductive tok : Type :=
| Keyword_Token
| Keyword_Tokens
| Keyword_Type
| Name_Attribute
| Name_Builtins
| Name_Keyword_Tokens
| Name_Namespace
| Whitespace
| Generic
| Operator
| Punctuation
| Comment_Single
| Comment_Hashbang
| Number
| String_
| String_Interpol
| String_Doc
| Text
| Error.

(** A span (start offset, end offset, category). *)
Record span : Type := Span { start : nat; stop : nat; cat : tok }.

Definition text (s : buffer) (x : span) : buffer := sub s (start x) (stop x).

(** A category assignment: one category for the whole match, or one per
    capture group. *)
Inductive action : Type :=
| Single (t : tok)
| ByGroups (ts : list tok).

Definition rule : Type := regex * action.

(** ** The pattern fragments of the module *)

(** [_TYPE] (line 20): a group holding one or more word characters and
    an optional pair of square brackets; [n] is the number of the
    group. *)
Definition _TYPE (n : nat) : regex :=
  Grp n (plus (Cls word_char) >> opt (lit (str "[]"))).

(** [_BASE_ATTRIBUTE] (line 21): group [n] holds word characters followed by any
    number of colon-led word runs; then, optionally and outside any
    group of its own, group [n+1] holding a dot and group [n+2] holding
    the literal timeSamples. *)
Definition _BASE_ATTRIBUTE (n : nat) : regex :=
  Grp n (plus (Cls word_char) >> star (chr ":" >> plus (Cls word_char)))
  >> opt (Grp (n + 1) (chr ".") >> Grp (n + 2) (lit (str "timeSamples"))).

(** [_WHITESPACE] (line 22): group [n] holding one or more spaces or
    tabs. *)
Definition _WHITESPACE (n : nat) : regex := Grp n (plus (Cls blank_char)).

(** Modelled from the spec: [pygments.lexer.words], which is not part of
    the sources at hand.  A word list becomes a single alternation of
    the listed words, wrapped in the given prefix and suffix. *)
Definition words_ (ws : list buffer) (prefix suffix : regex) : regex :=
  prefix >> alts (map lit ws) >> suffix.

(** [_keywords] (lines 15 to 17): one rule for a word list, with a
    word boundary before and after the alternation. *)
Definition _keywords (ws : list buffer) (type_ : tok) : list rule :=
  [(words_ ws Bnd Bnd, Single type_)].

(** The four composite declaration rules (lines 38 to 101), with their
    groups numbered as the formatted patterns number them. *)
Definition custom_uniform_rule : rule :=
  (Grp 1 (lit (str "custom")) >> _WHITESPACE 2 >> Grp 3 (lit (str "uniform"))
   >> Grp 4 (plus (Cls space_char)) >> _TYPE 5 >> Grp 6 (plus (Cls space_char))
   >> _BASE_ATTRIBUTE 7 >> Grp 10 (star (Cls space_char)) >> Grp 11 (chr "="),
   ByGroups [Keyword_Token; Whitespace; Keyword_Token; Whitespace; Keyword_Type;
             Whitespace; Name_Attribute; Generic; Name_Keyword_Tokens;
             Whitespace; Operator]).

Definition custom_rule : rule :=
  (Grp 1 (lit (str "custom")) >> _WHITESPACE 2 >> _TYPE 3
   >> Grp 4 (plus (Cls space_char)) >> _BASE_ATTRIBUTE 5
   >> Grp 8 (star (Cls space_char)) >> Grp 9 (chr "="),
   ByGroups [Keyword_Token; Whitespace; Keyword_Type; Whitespace;
             Name_Attribute; Generic; Name_Keyword_Tokens; Whitespace;
             Operator]).

Definition uniform_rule : rule :=
  (Grp 1 (lit (str "uniform")) >> _WHITESPACE 2 >> _TYPE 3
   >> Grp 4 (plus (Cls space_char)) >> _BASE_ATTRIBUTE 5
   >> Grp 8 (star (Cls space_char)) >> Grp 9 (chr "="),
   ByGroups [Keyword_Token; Whitespace; Keyword_Type; Whitespace;
             Name_Attribute; Generic; Name_Keyword_Tokens; Whitespace;
             Operator]).

Definition bare_type_rule : rule :=
  (_TYPE 1 >> _WHITESPACE 2 >> _BASE_ATTRIBUTE 3
   >> Grp 6 (star (Cls space_char)) >> Grp 7 (chr "="),
   ByGroups [Keyword_Type; Whitespace; Name_Attribute; Generic;
             Name_Keyword_Tokens; Whitespace; Operator]).

Definition composite_rules : list rule :=
  [custom_uniform_rule; custom_rule; uniform_rule; bare_type_rule].

(** Line 106: a word boundary, word characters, a colon, a run of word
    characters and colons, a word boundary. *)
Definition namespaced_rule : rule :=
  (Bnd >> plus (Cls word_char) >> chr ":"
   >> plus (Cls (fun c => word_char c || same ":" c)) >> Bnd,
   Single Name_Attribute).

(** Line 108: a type name followed by a pair of square brackets; the
    type names are plain words and are read literally. *)
Definition array_rule (type_ : buffer) : rule :=
  (lit type_ >> lit (str "[]"), Single Keyword_Type).

(** Line 110: one bracket, brace or parenthesis. *)
Definition punctuation_rule : rule :=
  (Cls (fun c => same "(" c || same ")" c || same "[" c || same "]" c
                 || same "{" c || same "}" c),
   Single Punctuation).

Definition QUOTE : ascii := ascii_of_nat 39.
Definition DQUOTE : ascii := ascii_of_nat 34.
Definition BACKSLASH : ascii := ascii_of_nat 92.

(** Lines 112 to 115: the line comment (a hash sign and a lazy run up
    to the end of the line), the comma, the semicolon and the equals
    sign. *)
Definition comment_rule : rule :=
  (chr "#" >> lazy_star (Cls dot_char) >> Eol, Single Comment_Single).
Definition comma_rule : rule := (chr ",", Single Generic).
Definition semicolon_rule : rule := (chr ";", Single Generic).
Definition equals_rule : rule := (chr "=", Single Operator).

(** Line 116: an optional minus sign, an optional group of digits ending in a
    dot, one or more digits. *)
Definition number_rule : rule :=
  (opt (chr "-") >> opt (Grp 1 (star (Cls digit) >> chr "."))
   >> plus (Cls digit),
   Single Number).

(** Lines 117 and 118: three quotes, a lazy run of any characters
    including line feeds, three quotes. *)
Definition triple_rule (q : ascii) : rule :=
  (lit [q; q; q] >> lazy_star (Alt (Cls dot_char) (chr LF)) >> lit [q; q; q],
   Single String_).

(** Lines 119 and 120: a quote, a greedy run of any characters of the
    line, the same quote. *)
Definition quoted_rule (q : ascii) : rule :=
  (chr q >> star (Cls dot_char) >> chr q, Single String_).

(** Line 121, an angle-bracketed path: any number of dot-dot-slash groups, then
    a run of word characters and slashes, or such a run, a dot, word
    characters and a run of word characters and colons. *)
Definition namespace_rule : rule :=
  let path := plus (Cls (fun c => word_char c || same "/" c)) in
  (chr "<" >> star (Grp 1 (lit (str "../")))
   >> Grp 2 (Alt path
               (path >> chr "." >> plus (Cls word_char)
                >> star (Cls (fun c => word_char c || same ":" c))))
   >> chr ">",
   Single Name_Namespace).

(** Line 122: an at sign, a greedy run, an at sign. *)
Definition interpol_rule : rule :=
  (chr "@" >> star (Cls dot_char) >> chr "@", Single String_Interpol).

(** Line 123: a parenthesis, a greedy run, a double quote, a run over the class
    holding the dot, the backslash and the letter n, a double quote, a
    greedy run, the closing parenthesis. *)
Definition doc_rule : rule :=
  (chr "(" >> star (Cls dot_char) >> chr DQUOTE
   >> star (Cls (fun c => same "." c || same BACKSLASH c || same "n" c))
   >> chr DQUOTE >> star (Cls dot_char) >> chr ")",
   Single String_Doc).

(** Line 124, at the very start of the buffer: the text #usda, a space
    and the rest of the line. *)
Definition hashbang_rule : rule :=
  (Bos >> lit (str "#usda ") >> plus (Cls dot_char) >> Eol,
   Single Comment_Hashbang).

(** Line 125: one or more whitespace characters. *)
Definition whitespace_rule : rule := (plus (Cls space_char), Single Text).

(** Line 126: one or more word characters, colons or dots. *)
Definition generic_rule : rule :=
  (plus (Cls (fun c => word_char c || same ":" c || same "." c)),
   Single Generic).

(** The rules of lines 112 to 126, from the line comment to the generic
    fallback. *)
Definition tail_rules : list rule :=
  [comment_rule; comma_rule; semicolon_rule; equals_rule; number_rule;
   triple_rule QUOTE; triple_rule DQUOTE; quoted_rule QUOTE;
   quoted_rule DQUOTE; namespace_rule; interpol_rule; doc_rule;
   hashbang_rule; whitespace_rule; generic_rule].

(** The vocabulary tables of [_usd_builtins]. *)
Record vocabulary : Type := Vocabulary {
  KEYWORDS : list buffer;
  SPECIAL_NAMES : list buffer;
  COMMON_ATTRIBUTES : list buffer;
  OPERATORS : list buffer;
  TYPES : list buffer
}.

(** The root state of [UsdLexer.tokens] (lines 36 to 128). *)
Definition root (v : vocabulary) : list rule :=
  composite_rules
  ++ _keywords (KEYWORDS v) Keyword_Tokens
  ++ _keywords (SPECIAL_NAMES v) Name_Builtins
  ++ _keywords (COMMON_ATTRIBUTES v) Name_Attribute
  ++ [namespaced_rule]
  ++ _keywords (OPERATORS v) Operator
  ++ map array_rule (TYPES v)
  ++ _keywords (TYPES v) Keyword_Type
  ++ [punctuation_rule]
  ++ tail_rules.

(** ** The matching engine *)

(** Modelled from the spec: [pygments.lexer.bygroups], which is not part
    of the sources at hand.  The categories are consumed in capture
    order; every group that took part in the match emits a span over its
    range (a zero-length one when it matched the empty string), a group
    that did not take part emits nothing.  In the rule table every
    character of a match with a per-group assignment lies in a group
    ([rule_ok] below), so no character is left between the spans. *)
Fixpoint bygroups (ts : list tok) (n : nat) (c : caps) : list span :=
  match ts with
  | [] => []
  | t :: ts' =>
      match group n c with
      | Some (a, b) => [Span a b t]
      | None => []
      end ++ bygroups ts' (S n) c
  end.

Definition emit (a : action) (i j : nat) (c : caps) : list span :=
  match a with
  | Single t => [Span i j t]
  | ByGroups ts => bygroups ts 1 c
  end.

Section Engine.

Variable rules : list rule.
Variable s : buffer.

(** One rule tried at the cursor: the spans it emits and the new
    cursor. *)
Definition try_rule (i : nat) (r : rule) : option (list span * nat) :=
  match rexmatch s (fst r) i with
  | Some (j, c) => Some (emit (snd r) i j c, j)
  | None => None
  end.

Fixpoint first_match (rs : list rule) (i : nat) : option (list span * nat) :=
  match rs with
  | [] => None
  | r :: rs' =>
      match try_rule i r with
      | Some out => Some out
      | None => first_match rs' i
      end
  end.

(** Modelled from the spec: one iteration of the loop of
    [RegexLexer.get_tokens_unprocessed], which is not part of the
    sources at hand.  The first rule that matches at the cursor wins;
    when none does, one character is emitted as an [Error] span. *)
Definition step (i : nat) : list span * nat :=
  match first_match rules i with
  | Some out => out
  | None => ([Span i (S i) Error], S i)
  end.

(** Modelled from the spec: the loop of
    [RegexLexer.get_tokens_unprocessed]: while the cursor is inside
    the buffer, apply [step].  The result is the span sequence and the
    number of iterations; [None] stands for a loop that is still
    running when the fuel is spent. *)
Fixpoint lex_loop (fuel : nat) (i : nat) : option (list span * nat) :=
  if length s <=? i then Some ([], 0)
  else
    match fuel with
    | 0 => None
    | S fuel' =>
        let (spans, j) := step i in
        match lex_loop fuel' j with
        | Some (rest, n) => Some (spans ++ rest, S n)
        | None => None
        end
    end.

End Engine.

(** Lexing a buffer from offset 0.  The fuel is the length of the
    buffer, which is enough whenever every iteration advances the
    cursor; a loop that stops advancing never ends, and [lex] is [None]
    for it. *)
Definition lex (v : vocabulary) (s : buffer) : option (list span * nat) :=
  lex_loop (root v) s (length s) 0.

Definition tokens_of (v : vocabulary) (s : buffer) : option (list (tok * string)) :=
  match lex v s with
  | Some (spans, _) =>
      Some (map (fun x => (cat x, string_of_list_ascii (text s x))) spans)
  | None => None
  end.

(** ** What a match is

    [den s r i c j c'] holds when [r] can match the buffer [s] from
    offset [i] to offset [j], turning the captures [c] into [c'].  The
    matcher only returns matches of this relation, which is what the
    properties of the token stream need. *)

Section Denotation.

Variable s : buffer.

Inductive iter (R : nat -> caps -> nat -> caps -> Prop)
  : nat -> caps -> nat -> caps -> Prop :=
| iter_stop : forall i c, iter R i c i c
| iter_more : forall i c m cm j c',
    R i c m cm -> i < m -> iter R m cm j c' -> iter R i c j c'.

Fixpoint den (r : regex) (i : nat) (c : caps) (j : nat) (c' : caps) : Prop :=
  match r with
  | Eps => j = i /\ c' = c
  | Cls p => (exists a, char_at s i = Some a /\ p a = true) /\ j = S i /\ c' = c
  | Seq r1 r2 => exists m cm, den r1 i c m cm /\ den r2 m cm j c'
  | Alt r1 r2 => den r1 i c j c' \/ den r2 i c j c'
  | Star _ r1 => iter (den r1) i c j c'
  | Grp n r1 => exists c0, den r1 i c j c0 /\ c' = (n, (i, j)) :: c0
  | Bnd => bnd s i = true /\ j = i /\ c' = c
  | Eol => eol s i = true /\ j = i /\ c' = c
  | Bos => i = 0 /\ j = i /\ c' = c
  end.

(** The least number of characters a match of [r] consumes. *)
Fixpoint min_len (r : regex) : nat :=
  match r with
  | Cls _ => 1
  | Seq r1 r2 => min_len r1 + min_len r2
  | Alt r1 r2 => Nat.min (min_len r1) (min_len r2)
  | Grp _ r1 => min_len r1
  | _ => 0
  end.

End Denotation.

(** ** Notions the statements and their proofs use *)

(** *** Groups, chains and offsets *)

(** [r] holds no capture group. *)
Fixpoint no_groups (r : regex) : bool :=
  match r with
  | Grp _ _ => false
  | Seq r1 r2 | Alt r1 r2 => no_groups r1 && no_groups r2
  | Star _ r1 => no_groups r1
  | _ => true
  end.

(** [shape r lo] is the number after the last group when [r] consists of
    the groups [lo], [lo + 1], ... laid end to end, some of them inside
    an optional part, and nothing else. *)
Fixpoint shape (r : regex) (lo : nat) : option nat :=
  match r with
  | Eps => Some lo
  | Grp n r1 => if (n =? lo) && no_groups r1 then Some (S lo) else None
  | Seq r1 r2 =>
      match shape r1 lo with
      | Some mid => shape r2 mid
      | None => None
      end
  | Alt r1 Eps => shape r1 lo
  | _ => None
  end.

(** [chain l i j]: the spans of [l] lead from offset [i] to offset [j],
    each starting where the one before it stopped. *)
Fixpoint chain (l : list span) (i j : nat) : Prop :=
  match l with
  | [] => i = j
  | x :: l' => start x = i /\ i <= stop x /\ chain l' (stop x) j
  end.

(** A rule is well formed when its pattern consumes at least one
    character and, for a per-group assignment, when its groups tile the
    match and are as many as the categories. *)
Definition rule_ok (r : rule) : bool :=
  (1 <=? min_len (fst r))
  && match snd r with
     | Single _ => true
     | ByGroups ts =>
         match shape (fst r) 1 with
         | Some hi => hi =? S (length ts)
         | None => false
         end
     end.






(** *** Vocabularies *)

(** [w] has a character. *)
Definition nonempty (w : buffer) : bool :=
  match w with
  | [] => false
  | _ :: _ => true
  end.

(** No vocabulary table lists the empty word. *)
Definition nonempty_words (v : vocabulary) : bool :=
  forallb nonempty (KEYWORDS v)
  && forallb nonempty (SPECIAL_NAMES v)
  && forallb nonempty (COMMON_ATTRIBUTES v)
  && forallb nonempty (OPERATORS v)
  && forallb nonempty (TYPES v).

(** A small vocabulary to run the lexer on. *)
Definition sample_vocabulary : vocabulary :=
  Vocabulary (map str ["custom"; "uniform"; "timeSamples"; "def"]%string)
             (map str ["kind"]%string)
             (map str ["extent"]%string)
             (map str ["add"]%string)
             (map str ["double"; "float"]%string).

(** [l] continues with [w]. *)
Fixpoint starts_with (w l : buffer) : bool :=
  match w, l with
  | [], _ => true
  | a :: w', b :: l' => same a b && starts_with w' l'
  | _ :: _, [] => false
  end.

(** The longest prefix of [l] whose characters satisfy [p]. *)
Fixpoint run (p : ascii -> bool) (l : buffer) : buffer :=
  match l with
  | a :: l' => if p a then a :: run p l' else []
  | [] => []
  end.

(** The word that starts at offset [i]. *)
Definition word_run (s : buffer) (i : nat) : buffer := run word_char (skipn i s).

(** Equality of buffers, and membership in a word list. *)
Fixpoint beq (a b : buffer) : bool :=
  match a, b with
  | [], [] => true
  | x :: a', y :: b' => same x y && beq a' b'
  | _, _ => false
  end.

Definition memb (w : buffer) (ws : list buffer) : bool := existsb (beq w) ws.

(** An identifier: word characters only, the first of them not a
    digit. *)
Definition identifier (w : buffer) : bool :=
  match w with
  | [] => false
  | a :: _ => negb (digit a) && forallb word_char w
  end.

(** Every listed word of the vocabulary is an identifier. *)
Definition identifiers (v : vocabulary) : bool :=
  forallb identifier (KEYWORDS v)
  && forallb identifier (SPECIAL_NAMES v)
  && forallb identifier (COMMON_ATTRIBUTES v)
  && forallb identifier (OPERATORS v)
  && forallb identifier (TYPES v).

(** The continuation of a word list: a word boundary, then [k]. *)
Definition boundary_then (s : buffer) (k : cont) : cont :=
  fun j c => if bnd s j then k j c else None.

(** *** The rule table, rule by rule *)

(** The span of the word at the cursor and the cursor after it. *)
Definition word_span (s : buffer) (i : nat) (t : tok) : list span * nat :=
  ([Span i (i + length (word_run s i)) t], i + length (word_run s i)).

(** The cursor is at a word boundary and the word there is in [ws]. *)
Definition listed (s : buffer) (i : nat) (ws : list buffer) : bool :=
  bnd s i && memb (word_run s i) ws.

(** The first matching rule of the table, found by looking the word at
    the cursor up in the tables instead of matching the alternations. *)
Definition reference (v : vocabulary) (s : buffer) (i : nat)
  : option (list span * nat) :=
  match first_match s composite_rules i with
  | Some out => Some out
  | None =>
      if listed s i (KEYWORDS v) then Some (word_span s i Keyword_Tokens)
      else if listed s i (SPECIAL_NAMES v) then Some (word_span s i Name_Builtins)
      else if listed s i (COMMON_ATTRIBUTES v)
      then Some (word_span s i Name_Attribute)
      else
        match try_rule s i namespaced_rule with
        | Some out => Some out
        | None =>
            if listed s i (OPERATORS v) then Some (word_span s i Operator)
            else if memb (word_run s i) (TYPES v)
                    && starts_with (str "[]")
                                   (skipn (i + length (word_run s i)) s)
            then Some ([Span i (i + length (word_run s i) + 2) Keyword_Type],
                       i + length (word_run s i) + 2)
            else if listed s i (TYPES v) then Some (word_span s i Keyword_Type)
            else first_match s (punctuation_rule :: tail_rules) i
        end
  end.

(** The vocabulary without words. *)
Definition empty_vocabulary : vocabulary := Vocabulary [] [] [] [] [].

(** The lookups at offset [i]: the word at the cursor, and whether the
    tables after the namespaced-attribute rule are consulted as well. *)
Definition probes_at (s : buffer) (i : nat) : list (bool * buffer) :=
  match first_match s composite_rules i with
  | Some _ => []
  | None =>
      if identifier (word_run s i)
      then match try_rule s i namespaced_rule with
           | Some _ => [(false, word_run s i)]
           | None => [(true, word_run s i)]
           end
      else []
  end.

Fixpoint probes (s : buffer) (fuel i : nat) : list (bool * buffer) :=
  if length s <=? i then []
  else
    match fuel with
    | 0 => []
    | S fuel' =>
        probes_at s i
        ++ probes s fuel' (snd (step (root empty_vocabulary) s i))
    end.

(** The word of a lookup is in none of the tables the lookup consults. *)
Definition unlisted (v : vocabulary) (p : bool * buffer) : bool :=
  negb (memb (snd p) (KEYWORDS v))
  && negb (memb (snd p) (SPECIAL_NAMES v))
  && negb (memb (snd p) (COMMON_ATTRIBUTES v))
  && (negb (fst p)
      || negb (memb (snd p) (OPERATORS v)) && negb (memb (snd p) (TYPES v))).

(** *** Runs, first characters and rule prefixes *)

(** The continuation offered the prefixes of the run [l] that starts at
    offset [i], the longest first. *)
Fixpoint longest (k : cont) (c : caps) (i : nat) (l : buffer) : result :=
  match l with
  | [] => k i c
  | _ :: l' =>
      match longest k c (S i) l' with
      | Some res => Some res
      | None => k i c
      end
  end.

(** The same, the shortest prefix first. *)
Fixpoint shortest (k : cont) (c : caps) (i : nat) (l : buffer) : result :=
  match k i c with
  | Some res => Some res
  | None =>
      match l with
      | [] => None
      | _ :: l' => shortest k c (S i) l'
      end
  end.

(** [r] may match without consuming a character. *)
Fixpoint nullable (r : regex) : bool :=
  match r with
  | Cls _ => false
  | Seq r1 r2 => nullable r1 && nullable r2
  | Alt r1 r2 => nullable r1 || nullable r2
  | Grp _ r1 => nullable r1
  | _ => true
  end.

(** [starts r a]: a match of [r] that consumes anything may begin with
    the character [a]. *)
Fixpoint starts (r : regex) (a : ascii) : bool :=
  match r with
  | Cls p => p a
  | Seq r1 r2 => starts r1 a || (nullable r1 && starts r2 a)
  | Alt r1 r2 => starts r1 a || starts r2 a
  | Star _ r1 => starts r1 a
  | Grp _ r1 => starts r1 a
  | _ => false
  end.

(** The rules that precede the semicolon rule. *)
Definition before_semicolon (v : vocabulary) : list rule :=
  composite_rules
  ++ _keywords (KEYWORDS v) Keyword_Tokens
  ++ _keywords (SPECIAL_NAMES v) Name_Builtins
  ++ _keywords (COMMON_ATTRIBUTES v) Name_Attribute
  ++ [namespaced_rule]
  ++ _keywords (OPERATORS v) Operator
  ++ map array_rule (TYPES v)
  ++ _keywords (TYPES v) Keyword_Type
  ++ [punctuation_rule]
  ++ [comment_rule; comma_rule].

(** The end of the line-comment rule: the cursor is at the end of a
    line. *)
Definition at_eol (s : buffer) : cont :=
  fun j c => if eol s j then Some (j, c) else None.

(** The categories a rule can assign. *)
Definition cats_of (a : action) : list tok :=
  match a with
  | Single t => [t]
  | ByGroups ts => ts
  end.

(** The rule assigns no hashbang category. *)
Definition is_hashbang (t : tok) : bool :=
  match t with
  | Comment_Hashbang => true
  | _ => false
  end.

Definition no_hashbang (r : rule) : bool :=
  forallb (fun t => negb (is_hashbang t)) (cats_of (snd r)).

(** The table without the hashbang rule. *)
Definition live_rules (v : vocabulary) : list rule :=
  composite_rules
  ++ _keywords (KEYWORDS v) Keyword_Tokens
  ++ _keywords (SPECIAL_NAMES v) Name_Builtins
  ++ _keywords (COMMON_ATTRIBUTES v) Name_Attribute
  ++ [namespaced_rule]
  ++ _keywords (OPERATORS v) Operator
  ++ map array_rule (TYPES v)
  ++ _keywords (TYPES v) Keyword_Type
  ++ [punctuation_rule]
  ++ firstn 12 tail_rules ++ skipn 13 tail_rules.

(** The closing quote of the rule: the character at the cursor is the
    quote. *)
Definition closing (s : buffer) (q : ascii) : cont :=
  fun j c => mt s (chr q) j c (fun j' c' => Some (j', c')).

(** The buffer that holds the seven characters of two quoted fragments
    a and b with a space between them. *)
Definition q_a_q_b : buffer :=
  [DQUOTE; "a"; DQUOTE; " "; DQUOTE; "b"; DQUOTE]%char.



(** The characters after the first colon of a namespaced attribute. *)
Definition ns_char (c : ascii) : bool := word_char c || same ":" c.


(** The part the four composite rules share: a type, a separator, the
    attribute name with its optional suffix, optional whitespace and the
    equals sign, in the groups [n] to [n + 6]. *)
Definition decl_tail (p : ascii -> bool) (n : nat) : regex :=
  _TYPE n >> Grp (n + 1) (plus (Cls p)) >> _BASE_ATTRIBUTE (n + 2)
  >> Grp (n + 5) (star (Cls space_char)) >> Grp (n + 6) (chr "=").

(** The spans of the optional suffix after an attribute name that ends
    at offset [m]. *)
Definition suffix_spans (m : nat) (sfx : bool) : list span :=
  if sfx
  then [Span m (m + 1) Generic; Span (m + 1) (m + 12) Name_Keyword_Tokens]
  else [].

(** The offset after the optional suffix. *)
Definition suffix_end (m : nat) (sfx : bool) : nat :=
  if sfx then m + 12 else m.

(** The spans of the shared part: type, separator, attribute name,
    suffix, optional whitespace, equals sign. *)
Definition decl_spans (i m1 m2 m3 m5 j : nat) (sfx : bool) : list span :=
  [Span i m1 Keyword_Type; Span m1 m2 Whitespace; Span m2 m3 Name_Attribute]
  ++ suffix_spans m3 sfx
  ++ [Span (suffix_end m3 sfx) m5 Whitespace; Span m5 j Operator].

(** What holds of the offsets of the shared part: the type, the
    separator and the attribute name are not empty, the type and the
    attribute name start with a word character, the separator is in the
    class [p], the optional whitespace is whitespace, the match ends with
    the equals sign, and the suffix, when present, is a dot and the word
    timeSamples. *)
Definition decl_facts (s : buffer) (p : ascii -> bool)
           (i m1 m2 m3 m5 j : nat) (sfx : bool) : Prop :=
  i < m1 /\ m1 < m2 /\ m2 < m3 /\ suffix_end m3 sfx <= m5 /\ j = S m5
  /\ word_at s i = true /\ word_at s m2 = true
  /\ forallb p (sub s m1 m2) = true
  /\ forallb space_char (sub s (suffix_end m3 sfx) m5) = true
  /\ char_at s m5 = Some "="%char
  /\ (sfx = true ->
      sub s m3 (m3 + 1) = str "."
      /\ sub s (m3 + 1) (m3 + 12) = str "timeSamples").

(** The captures of the shared part. *)
Definition decl_caps (n i m1 m2 m3 m5 j : nat) (sfx : bool) (c : caps) : caps :=
  (n + 6, (m5, j)) :: (n + 5, (suffix_end m3 sfx, m5))
  :: (if sfx
      then [(n + 2 + 2, (m3 + 1, m3 + 12)); (n + 2 + 1, (m3, m3 + 1))]
      else [])
  ++ (n + 2, (m2, m3)) :: (n + 1, (m1, m2)) :: (n, (i, m1)) :: c.

(** The rule for a declaration that starts with one modifier. *)
Definition modifier_rule (kw : buffer) : rule :=
  (Grp 1 (lit kw) >> _WHITESPACE 2 >> decl_tail space_char 3,
   ByGroups [Keyword_Token; Whitespace; Keyword_Type; Whitespace;
             Name_Attribute; Generic; Name_Keyword_Tokens; Whitespace;
             Operator]).


(** What the spans of a composite match say about the separator after
    the first word: it is the second span, a non-empty [Whitespace] span
    that holds the whole whitespace run at that place, made of spaces
    and tabs only. *)
Definition separator_claim (s : buffer) (i : nat) (spans : list span) : Prop :=
  exists x0 x1 rest,
    spans = x0 :: x1 :: rest
    /\ start x0 = i
    /\ stop x0 = start x1
    /\ cat x1 = Whitespace
    /\ start x1 < stop x1
    /\ text s x1 = run space_char (skipn (start x1) s)
    /\ forallb blank_char (text s x1) = true
    /\ existsb (same LF) (text s x1) = false.



(** *** The rules of lines 106 to 126, read as a scanner reads them

    For the rules below the word lists, the end of a match can be found
    by walking the buffer once, without backtracking.  The definitions
    here are those walks; the properties at the end of the file show
    that the patterns of the table match exactly what they find. *)

(** The characters of the bracket rule (line 110). *)
Definition bracket_char (c : ascii) : bool :=
  same "(" c || same ")" c || same "[" c || same "]" c
  || same "{" c || same "}" c.



(** Every pattern among [rs] consumes a character and none of them can
    begin with the character [a]. *)
Definition none_starts (rs : list rule) (a : ascii) : bool :=
  forallb (fun r => (1 <=? min_len (fst r)) && negb (starts (fst r) a)) rs.

(** The category of the one-character rules (lines 110 and 113 to
    115). *)
Definition sign_token (a : ascii) : option tok :=
  if bracket_char a then Some Punctuation
  else if same "," a || same ";" a then Some Generic
  else if same "=" a then Some Operator
  else None.

(** The offset of a result. *)
Definition end_of (r : result) : option nat :=
  match r with
  | Some (j, _) => Some j
  | None => None
  end.

(** The outcome of a rule with one category that matches up to [j]. *)
Definition token_to (i : nat) (t : tok) (j : option nat)
  : option (list span * nat) :=
  match j with
  | Some j => Some ([Span i j t], j)
  | None => None
  end.

(** The outcome of an iteration that emits one span up to [j], or an
    [Error] span of one character when there is no such offset. *)
Definition token_or_error (i : nat) (t : tok) (j : option nat)
  : list span * nat :=
  match j with
  | Some j => ([Span i j t], j)
  | None => ([Span i (S i) Error], S i)
  end.


(** Numbers (line 116).  The offset after an optional minus sign at
    offset [i]. *)
Definition after_sign (s : buffer) (i : nat) : nat :=
  match char_at s i with
  | Some a => if same "-" a then S i else i
  | None => i
  end.

(** The offset after the digits, a dot and at least one digit that start
    at offset [j], or else after the one or more digits that start
    there. *)
Definition digits_end (s : buffer) (j : nat) : option nat :=
  let m := j + length (run digit (skipn j s)) in
  let frac := length (run digit (skipn (S m) s)) in
  if starts_with (str ".") (skipn m s) && (0 <? frac) then Some (S m + frac)
  else if j <? m then Some m
  else None.

(** The end of the number at offset [i]: the sign, then the digits. *)
Definition number_end (s : buffer) (i : nat) : option nat :=
  digits_end s (after_sign s i).

(** Triple-quoted strings (lines 117 and 118).  The offset after the
    first occurrence of [w] in [l], where [l] holds the characters of the
    buffer from offset [i] on. *)
Fixpoint find_after (w l : buffer) (i : nat) : option nat :=
  match l with
  | [] => if starts_with w [] then Some (i + length w) else None
  | a :: l' =>
      if starts_with w (a :: l') then Some (i + length w)
      else find_after w l' (S i)
  end.

(** The end of the triple-quoted string at offset [i]: three quotes,
    then the first three quotes after them. *)
Definition triple_end (s : buffer) (q : ascii) (i : nat) : option nat :=
  if starts_with [q; q; q] (skipn i s)
  then find_after [q; q; q] (skipn (i + 3) s) (i + 3)
  else None.

(** One-line strings and asset references (lines 119, 120 and 122).  The
    offset after the last [q] in [l], where [l] holds the characters of
    the buffer from offset [i] on. *)
Fixpoint last_after (q : ascii) (l : buffer) (i : nat) : option nat :=
  match l with
  | [] => None
  | a :: l' =>
      match last_after q l' (S i) with
      | Some j => Some j
      | None => if same q a then Some (S i) else None
      end
  end.

(** The end of the one-line string at offset [i]: the delimiter [q],
    then the rest of the line up to its last [q]. *)
Definition quoted_end (s : buffer) (q : ascii) (i : nat) : option nat :=
  match char_at s i with
  | Some a =>
      if same q a
      then last_after q (run dot_char (skipn (S i) s)) (S i)
      else None
  | None => None
  end.

(** The end of the string at the quote [q] at offset [i]: the
    triple-quoted string when there is one, else the one-line string. *)
Definition string_end (s : buffer) (q : ascii) (i : nat) : option nat :=
  match triple_end s q i with
  | Some j => Some j
  | None => quoted_end s q i
  end.









(** *** Rules that never decide, and categories *)

(** The table without the rule of line 123 and the rule of line 124. *)
Definition working_rules (v : vocabulary) : list rule :=
  composite_rules
  ++ _keywords (KEYWORDS v) Keyword_Tokens
  ++ _keywords (SPECIAL_NAMES v) Name_Builtins
  ++ _keywords (COMMON_ATTRIBUTES v) Name_Attribute
  ++ [namespaced_rule]
  ++ _keywords (OPERATORS v) Operator
  ++ map array_rule (TYPES v)
  ++ _keywords (TYPES v) Keyword_Type
  ++ [punctuation_rule]
  ++ firstn 11 tail_rules ++ skipn 13 tail_rules.

(** The categories of the rules of lines 123 and 124. *)
Definition dead_category (t : tok) : bool :=
  match t with
  | String_Doc | Comment_Hashbang => true
  | _ => false
  end.


(** Every category the rule assigns satisfies [ok]. *)
Definition assigns (ok : tok -> bool) (r : rule) : bool :=
  forallb ok (cats_of (snd r)).

(** *** The text of a declaration *)

(** The words of the tables that are consulted before the array-of-type
    rules. *)
Definition earlier_words (v : vocabulary) : list buffer :=
  KEYWORDS v ++ SPECIAL_NAMES v ++ COMMON_ATTRIBUTES v ++ OPERATORS v.

(** What holds of the text of the shared part of a composite match: the
    type is a run of word characters, possibly with a pair of brackets
    after it, and the attribute name is made of word characters and
    colons. *)
Definition decl_texts (s : buffer) (i m1 m2 m3 : nat) : Prop :=
  (exists m,
      i < m
      /\ forallb word_char (sub s i m) = true
      /\ (m1 = m \/ (m1 = m + 2 /\ char_at s m = Some "["%char)))
  /\ forallb ns_char (sub s m2 m3) = true.

(** The buffers the properties of the scanners are evaluated on. *)
Definition doc_comment_line : buffer :=
  ["("; DQUOTE; "a"; DQUOTE; ")"]%char.

Definition two_strings_line : buffer :=
  [QUOTE; "a"; QUOTE; " "; QUOTE; "b"; QUOTE; LF; QUOTE; "c"]%char.

(** * Properties *)

(** ** The matcher is sound for the match relation *)

Section DenotationFacts.

Variable s : buffer.

Lemma star_loop_sound (body : nat -> caps -> cont -> result)
      (R : nat -> caps -> nat -> caps -> Prop) :
  (forall i c k res, body i c k = Some res ->
                     exists j c', R i c j c' /\ k j c' = Some res) ->
  forall greedy k fuel i c res,
    star_loop body greedy k fuel i c = Some res ->
    exists j c', iter R i c j c' /\ k j c' = Some res.
Proof.
  intros Hbody greedy k fuel.
  induction fuel as [|fuel IH]; intros i c res H; simpl in H.
  - destruct greedy.
    + exists i, c. split; [constructor | exact H].
    + destruct (k i c) eqn:Hk; [|discriminate].
      exists i, c. split; [constructor | congruence].
  - assert (Hstep : forall out,
               body i c (fun j c' => if i <? j
                                     then star_loop body greedy k fuel j c'
                                     else None) = Some out ->
               exists j c', iter R i c j c' /\ k j c' = Some out).
    { intros out Hb.
      destruct (Hbody _ _ _ _ Hb) as (m & cm & HR & Hk).
      destruct (i <? m) eqn:Hlt; [|discriminate].
      apply Nat.ltb_lt in Hlt.
      destruct (IH _ _ _ Hk) as (j & c' & Hit & Hk').
      exists j, c'. split; [econstructor; eauto | exact Hk']. }
    destruct greedy.
    + destruct (body i c _) eqn:Hb.
      * apply Hstep. exact H.
      * exists i, c. split; [constructor | exact H].
    + destruct (k i c) eqn:Hk.
      * exists i, c. split; [constructor | congruence].
      * apply Hstep. exact H.
Qed.

(** Every result of the matcher is a match. *)
Lemma mt_sound (r : regex) :
  forall i c k res,
    mt s r i c k = Some res ->
    exists j c', den s r i c j c' /\ k j c' = Some res.
Proof.
  induction r as [|p|r1 IH1 r2 IH2|r1 IH1 r2 IH2|g r1 IH1|n r1 IH1| | |];
    intros i c k res H; simpl in H.
  - exists i, c. simpl. auto.
  - destruct (char_at s i) as [a|] eqn:Ha; [|discriminate].
    destruct (p a) eqn:Hp; [|discriminate].
    exists (S i), c. simpl. eauto 6.
  - destruct (IH1 _ _ _ _ H) as (m & cm & H1 & H2).
    destruct (IH2 _ _ _ _ H2) as (j & c' & H3 & H4).
    exists j, c'. simpl. eauto.
  - destruct (mt s r1 i c k) eqn:H1.
    + inversion H; subst.
      destruct (IH1 _ _ _ _ H1) as (j & c' & H2 & H3).
      exists j, c'. simpl. auto.
    + destruct (IH2 _ _ _ _ H) as (j & c' & H2 & H3).
      exists j, c'. simpl. auto.
  - eapply star_loop_sound in H; [|exact IH1]. exact H.
  - destruct (IH1 _ _ _ _ H) as (j & c0 & H1 & H2).
    exists j, ((n, (i, j)) :: c0). simpl. eauto.
  - destruct (bnd s i) eqn:Hb; [|discriminate]. exists i, c. simpl. auto.
  - destruct (eol s i) eqn:Hb; [|discriminate]. exists i, c. simpl. auto.
  - destruct (i =? 0) eqn:Hb; [|discriminate].
    apply Nat.eqb_eq in Hb. exists i, c. simpl. auto.
Qed.

Lemma rexmatch_sound (r : regex) (i j : nat) (c : caps) :
  rexmatch s r i = Some (j, c) -> den s r i [] j c.
Proof.
  unfold rexmatch. intros H.
  destruct (mt_sound _ _ _ _ _ H) as (j' & c' & Hd & Hk).
  inversion Hk; subst. exact Hd.
Qed.

Lemma char_at_lt (i : nat) (a : ascii) : char_at s i = Some a -> i < length s.
Proof.
  unfold char_at. intros H. apply nth_error_Some. congruence.
Qed.

Lemma iter_bounds (R : nat -> caps -> nat -> caps -> Prop) :
  (forall i c j c', R i c j c' -> i <= length s -> j <= length s) ->
  forall i c j c', iter R i c j c' -> i <= length s -> i <= j <= length s.
Proof.
  intros HR i c j c' H. induction H; intros Hi.
  - lia.
  - specialize (HR _ _ _ _ H Hi). specialize (IHiter HR). lia.
Qed.

(** A match moves forward by at least [min_len] characters and stays
    inside the buffer. *)
Lemma den_bounds (r : regex) :
  forall i c j c',
    den s r i c j c' -> i <= length s -> i + min_len r <= j <= length s.
Proof.
  induction r as [|p|r1 IH1 r2 IH2|r1 IH1 r2 IH2|g r1 IH1|n r1 IH1| | |];
    intros i c j c' H Hi; simpl in H; simpl min_len.
  - destruct H; subst. lia.
  - destruct H as ((a & Ha & _) & -> & _). apply char_at_lt in Ha. lia.
  - destruct H as (m & cm & H1 & H2).
    apply IH1 in H1; [|exact Hi]. apply IH2 in H2; lia.
  - destruct H as [H|H]; [apply IH1 in H | apply IH2 in H]; lia.
  - apply iter_bounds in H; [lia | | exact Hi].
    intros a b a' b' Hd Ha. apply IH1 in Hd; lia.
  - destruct H as (c0 & H & _). apply IH1 in H; lia.
  - destruct H as (_ & -> & _). lia.
  - destruct H as (_ & -> & _). lia.
  - destruct H as (_ & -> & _). lia.
Qed.

End DenotationFacts.

(** ** Capture groups laid end to end

    In the composite rules every character of the match lies in a
    capture group, and the groups follow one another.  [shape r lo]
    recognises such patterns: it returns the number of the group after
    the last one when [r] consists of the groups [lo], [lo+1], ... in
    sequence, some of them inside an optional part. *)

Lemma chain_app (l1 l2 : list span) (i m j : nat) :
  chain l1 i m -> chain l2 m j -> chain (l1 ++ l2) i j.
Proof.
  revert i. induction l1 as [|x l1 IH]; simpl; intros i H1 H2.
  - subst. exact H2.
  - destruct H1 as (Hs & Hle & Hc). auto.
Qed.


Lemma bygroups_app (ts1 ts2 : list tok) (n : nat) (c : caps) :
  bygroups (ts1 ++ ts2) n c = bygroups ts1 n c ++ bygroups ts2 (length ts1 + n) c.
Proof.
  revert n. induction ts1 as [|t ts1 IH]; simpl; intros n.
  - reflexivity.
  - rewrite IH, <- app_assoc. do 3 f_equal. lia.
Qed.

Lemma bygroups_ext (ts : list tok) (n : nat) (c c' : caps) :
  (forall m, n <= m < n + length ts -> group m c' = group m c) ->
  bygroups ts n c' = bygroups ts n c.
Proof.
  revert n. induction ts as [|t ts IH]; simpl; intros n H.
  - reflexivity.
  - rewrite H by lia. rewrite IH; [reflexivity|].
    intros m Hm. apply H. lia.
Qed.

Lemma bygroups_unset (ts : list tok) (n : nat) (c : caps) :
  (forall m, n <= m -> group m c = None) -> bygroups ts n c = [].
Proof.
  revert n. induction ts as [|t ts IH]; simpl; intros n H.
  - reflexivity.
  - rewrite H by lia. rewrite IH; [reflexivity|].
    intros m Hm. apply H. lia.
Qed.

Section Tiling.

Variable s : buffer.

Lemma no_groups_den (r : regex) :
  no_groups r = true ->
  forall i c j c', den s r i c j c' -> c' = c.
Proof.
  induction r as [|p|r1 IH1 r2 IH2|r1 IH1 r2 IH2|g r1 IH1|n r1 IH1| | |];
    simpl; intros Hn i c j c' H; try discriminate.
  - tauto.
  - tauto.
  - apply andb_prop in Hn. destruct Hn as [Hn1 Hn2].
    destruct H as (m & cm & H1 & H2).
    apply IH1 in H1; [|exact Hn1]. apply IH2 in H2; [|exact Hn2]. congruence.
  - apply andb_prop in Hn. destruct Hn as [Hn1 Hn2].
    destruct H as [H|H]; [apply IH1 in H | apply IH2 in H]; assumption.
  - induction H as [|i c m cm j c' Hd Hlt Hit IHit].
    + reflexivity.
    + apply IH1 in Hd; [|exact Hn]. congruence.
  - tauto.
  - tauto.
  - tauto.
Qed.

Lemma shape_mono (r : regex) :
  forall lo hi, shape r lo = Some hi -> lo <= hi.
Proof.
  induction r as [|p|r1 IH1 r2 IH2|r1 IH1 r2 IH2|g r1 IH1|n r1 IH1| | |];
    simpl; intros lo hi H; try discriminate.
  - inversion H. lia.
  - destruct (shape r1 lo) as [mid|] eqn:H1; [|discriminate].
    apply IH1 in H1. apply IH2 in H. lia.
  - destruct r2; try discriminate. apply IH1 in H. exact H.
  - destruct ((n =? lo) && no_groups r1); inversion H. lia.
Qed.

(** The groups of a pattern of that shape tile its match. *)
Lemma shape_den (r : regex) :
  forall lo hi i c j c',
    shape r lo = Some hi ->
    den s r i c j c' ->
    i <= length s ->
    (forall n, lo <= n -> group n c = None) ->
    (forall n, n < lo -> group n c' = group n c)
    /\ (forall n, hi <= n -> group n c' = None)
    /\ (forall ts, length ts = hi - lo -> chain (bygroups ts lo c') i j).
Proof.
  induction r as [|p|r1 IH1 r2 IH2|r1 IH1 r2 IH2|g r1 IH1|n r1 IH1| | |];
    simpl shape; intros lo hi i c j c' Hs Hd Hi Hc; try discriminate.
  - inversion Hs; subst hi. destruct Hd as [-> ->].
    repeat split; auto.
    intros ts Hts. rewrite Nat.sub_diag in Hts.
    apply length_zero_iff_nil in Hts. subst ts. reflexivity.
  - destruct (shape r1 lo) as [mid|] eqn:Hs1; [|discriminate].
    destruct Hd as (m & cm & Hd1 & Hd2).
    assert (Hlm := shape_mono _ _ _ Hs1). assert (Hmh := shape_mono _ _ _ Hs).
    assert (Hm : m <= length s) by (apply den_bounds in Hd1; lia).
    destruct (IH1 _ _ _ _ _ _ Hs1 Hd1 Hi Hc) as (Ha1 & Hb1 & Hc1).
    destruct (IH2 _ _ _ _ _ _ Hs Hd2 Hm Hb1) as (Ha2 & Hb2 & Hc2).
    repeat split.
    + intros n Hn. rewrite Ha2 by lia. apply Ha1. exact Hn.
    + exact Hb2.
    + intros ts Hts.
      rewrite <- (firstn_skipn (mid - lo) ts).
      assert (Hlen : length (firstn (mid - lo) ts) = mid - lo)
        by (rewrite length_firstn; lia).
      rewrite bygroups_app, Hlen.
      apply chain_app with (m := m).
      * rewrite bygroups_ext with (c := cm).
        -- apply Hc1. exact Hlen.
        -- intros k Hk. apply Ha2. lia.
      * replace (mid - lo + lo) with mid by lia.
        apply Hc2. rewrite length_skipn. lia.
  - destruct r2; try discriminate.
    destruct Hd as [Hd|Hd].
    + eapply IH1; eauto.
    + simpl in Hd. destruct Hd as [-> ->].
      assert (Hlh := shape_mono _ _ _ Hs).
      repeat split; auto.
      * intros n Hn. apply Hc. lia.
      * intros ts _. rewrite bygroups_unset by exact Hc. reflexivity.
  - destruct (n =? lo) eqn:Hn; [|discriminate].
    destruct (no_groups r1) eqn:Hg; [|discriminate].
    apply Nat.eqb_eq in Hn. subst n. inversion Hs; subst hi.
    simpl in Hd. destruct Hd as (c0 & Hd & ->).
    assert (Hb := den_bounds _ _ _ _ _ _ Hd Hi).
    apply no_groups_den in Hd; [|exact Hg]. subst c0.
    repeat split.
    + intros n Hn. simpl. destruct (n =? lo) eqn:E; [|reflexivity].
      apply Nat.eqb_eq in E. lia.
    + intros n Hn. simpl. destruct (n =? lo) eqn:E.
      * apply Nat.eqb_eq in E. lia.
      * apply Hc. lia.
    + intros ts Hts. replace (S lo - lo) with 1 in Hts by lia.
      destruct ts as [|t [|t' ts]]; try discriminate.
      simpl. rewrite Nat.eqb_refl. simpl. repeat split; lia.
Qed.

End Tiling.

(** ** Progress and coverage of the engine *)

Section EngineFacts.

Variable rules : list rule.
Variable s : buffer.
Hypothesis rules_ok : forallb rule_ok rules = true.

Lemma try_rule_ok (r : rule) (i j : nat) (spans : list span) :
  rule_ok r = true ->
  i <= length s ->
  try_rule s i r = Some (spans, j) ->
  i < j <= length s /\ chain spans i j.
Proof.
  unfold rule_ok, try_rule. destruct r as [re a]. simpl fst. simpl snd.
  intros Hok Hi H.
  apply andb_prop in Hok. destruct Hok as [Hmin Hact].
  apply Nat.leb_le in Hmin.
  destruct (rexmatch s re i) as [[j' c]|] eqn:Hm; [|discriminate].
  inversion H; subst j' spans. clear H.
  apply rexmatch_sound in Hm.
  assert (Hb := den_bounds _ _ _ _ _ _ Hm Hi).
  split; [lia|].
  destruct a as [t|ts]; simpl.
  - repeat split; lia.
  - destruct (shape re 1) as [hi|] eqn:Hs; [|discriminate].
    apply Nat.eqb_eq in Hact. subst hi.
    destruct (shape_den s re _ _ _ _ _ _ Hs Hm Hi) as (_ & _ & Hc).
    + reflexivity.
    + apply Hc. lia.
Qed.

Lemma first_match_ok (rs : list rule) (i j : nat) (spans : list span) :
  forallb rule_ok rs = true ->
  i <= length s ->
  first_match s rs i = Some (spans, j) ->
  i < j <= length s /\ chain spans i j.
Proof.
  induction rs as [|r rs IH]; simpl; intros Hok Hi H.
  - discriminate.
  - apply andb_prop in Hok. destruct Hok as [Hr Hrs].
    destruct (try_rule s i r) as [[sp j']|] eqn:Ht.
    + inversion H; subst. eapply try_rule_ok; eauto.
    + auto.
Qed.

(** Every iteration inside the buffer advances the cursor and emits
    spans that lead from the old cursor to the new one. *)
Lemma step_ok (i j : nat) (spans : list span) :
  i < length s ->
  step rules s i = (spans, j) ->
  i < j <= length s /\ chain spans i j.
Proof.
  unfold step. intros Hi H.
  destruct (first_match s rules i) as [[sp j']|] eqn:Hf.
  - inversion H; subst. eapply first_match_ok; eauto. lia.
  - inversion H; subst. simpl. repeat split; lia.
Qed.

Lemma lex_loop_ok (fuel : nat) :
  forall i,
    i <= length s ->
    length s - i <= fuel ->
    exists spans n,
      lex_loop rules s fuel i = Some (spans, n)
      /\ chain spans i (length s)
      /\ n <= length s - i.
Proof.
  induction fuel as [|fuel IH]; intros i Hi Hf; simpl.
  - assert (Hle : (length s <=? i) = true) by (apply Nat.leb_le; lia).
    rewrite Hle. exists [], 0. simpl. repeat split; lia.
  - destruct (length s <=? i) eqn:Hle.
    + apply Nat.leb_le in Hle. exists [], 0. simpl. repeat split; lia.
    + apply Nat.leb_gt in Hle.
      destruct (step rules s i) as [sp j] eqn:Hst.
      destruct (step_ok _ _ _ Hle Hst) as (Hj & Hc).
      destruct (IH j) as (rest & n & Hl & Hcr & Hn); [lia | lia |].
      rewrite Hl. exists (sp ++ rest), (S n).
      repeat split; [eapply chain_app; eauto | lia].
Qed.

End EngineFacts.

(** *** Chains cover the buffer *)

Lemma firstn_plus {A} (a b : nat) (l : list A) :
  firstn (a + b) l = firstn a l ++ firstn b (skipn a l).
Proof.
  revert l. induction a as [|a IH]; intros [|x l]; simpl; try reflexivity.
  - rewrite firstn_nil. reflexivity.
  - rewrite IH. reflexivity.
Qed.

Lemma sub_app (s : buffer) (i m j : nat) :
  i <= m -> m <= j -> sub s i m ++ sub s m j = sub s i j.
Proof.
  unfold sub. intros H1 H2.
  replace (j - i) with ((m - i) + (j - m)) by lia.
  rewrite firstn_plus, skipn_skipn.
  replace (m - i + i) with m by lia. reflexivity.
Qed.

Lemma sub_nil (s : buffer) (i : nat) : sub s i i = [].
Proof. unfold sub. rewrite Nat.sub_diag. reflexivity. Qed.








(** ** The rule table is well formed *)

Lemma min_len_lit (w : buffer) : min_len (lit w) = length w.
Proof.
  induction w as [|a w IH]; simpl; [reflexivity | rewrite IH; reflexivity].
Qed.

Lemma min_len_alts_lit (ws : list buffer) :
  forallb nonempty ws = true -> 1 <= min_len (alts (map lit ws)).
Proof.
  induction ws as [|w ws IH]; cbn [alts map min_len forallb]; intros H.
  - unfold never. simpl. lia.
  - apply andb_prop in H. destruct H as [Hw Hws].
    specialize (IH Hws). rewrite min_len_lit.
    destruct w; [discriminate|].
    apply Nat.min_glb; [simpl; lia | exact IH].
Qed.

Lemma keywords_ok (ws : list buffer) (t : tok) :
  forallb nonempty ws = true -> forallb rule_ok (_keywords ws t) = true.
Proof.
  intros H. apply min_len_alts_lit in H.
  unfold _keywords, rule_ok, words_. cbn [forallb fst snd min_len].
  rewrite Nat.add_0_r, !andb_true_r.
  apply Nat.leb_le. simpl. exact H.
Qed.

Lemma arrays_ok (ws : list buffer) : forallb rule_ok (map array_rule ws) = true.
Proof.
  induction ws as [|w ws IH]; simpl; [reflexivity|].
  rewrite IH, andb_true_r. unfold rule_ok, array_rule.
  cbn [fst snd min_len]. rewrite min_len_lit, andb_true_r.
  apply Nat.leb_le. simpl. lia.
Qed.

Lemma root_ok (v : vocabulary) :
  nonempty_words v = true -> forallb rule_ok (root v) = true.
Proof.
  unfold nonempty_words, root. intros H.
  repeat (apply andb_prop in H; destruct H as [H ?]).
  repeat rewrite forallb_app.
  repeat rewrite keywords_ok by assumption.
  rewrite arrays_ok. reflexivity.
Qed.

(** ** Termination (C2) *)

Lemma lex_chain (v : vocabulary) (s : buffer) :
  nonempty_words v = true ->
  exists spans n,
    lex v s = Some (spans, n) /\ chain spans 0 (length s) /\ n <= length s.
Proof.
  intros Hv. unfold lex.
  destruct (lex_loop_ok (root v) s (root_ok v Hv) (length s) 0)
    as (spans & n & Hl & Hc & Hn); [lia | lia |].
  exists spans, n. repeat split; [exact Hl | exact Hc | lia].
Qed.

(** C2: for every buffer the loop ends within as many iterations as the
    buffer has characters, every iteration inside the buffer advances the
    cursor by at least one character, the lexer returns a span sequence
    on every input, and the empty buffer yields the empty sequence. *)
Theorem C2_termination (v : vocabulary) (s : buffer) :
  nonempty_words v = true ->
  (exists spans n, lex v s = Some (spans, n) /\ n <= length s)
  /\ (forall i, i < length s -> i + 1 <= snd (step (root v) s i) <= length s)
  /\ lex v [] = Some ([], 0).
Proof.
  intros Hv. split; [|split].
  - destruct (lex_chain v s Hv) as (spans & n & Hl & _ & Hn). eauto.
  - intros i Hi. destruct (step (root v) s i) as [sp j] eqn:Hst.
    destruct (step_ok (root v) s (root_ok v Hv) _ _ _ Hi Hst) as (Hj & _).
    simpl. lia.
  - reflexivity.
Qed.

Lemma C2_termination_witness :
  nonempty_words sample_vocabulary = true
  /\ (exists spans n,
         lex sample_vocabulary (str "def x") = Some (spans, n)
         /\ n <= length (str "def x"))
  /\ (forall i, i < length (str "def x") ->
                i + 1 <= snd (step (root sample_vocabulary) (str "def x") i)
                      <= length (str "def x"))
  /\ lex sample_vocabulary [] = Some ([], 0).
Proof.
  split; [reflexivity|].
  apply (C2_termination sample_vocabulary (str "def x")). reflexivity.
Defined.

(** ** Literals and word lists

    What the vocabulary rules match when every listed word is an
    identifier: word characters only, not starting with a digit. *)

Lemma same_eq (a b : ascii) : same a b = true <-> a = b.
Proof. unfold same. apply Ascii.eqb_eq. Qed.

Lemma same_refl (a : ascii) : same a a = true.
Proof. apply same_eq. reflexivity. Qed.

Lemma beq_eq (a b : buffer) : beq a b = true <-> a = b.
Proof.
  revert b. induction a as [|x a IH]; intros [|y b]; simpl;
    try (split; [discriminate | intros H; inversion H]); try tauto.
  rewrite andb_true_iff, same_eq, IH. split.
  - intros [-> ->]. reflexivity.
  - intros H. inversion H. auto.
Qed.

Lemma beq_refl (a : buffer) : beq a a = true.
Proof. apply beq_eq. reflexivity. Qed.

Lemma skipn_char (s : buffer) (i : nat) (a : ascii) :
  char_at s i = Some a -> skipn i s = a :: skipn (S i) s.
Proof.
  unfold char_at. revert i. induction s as [|b s IH]; intros [|i] H;
    simpl in *; try discriminate.
  - inversion H. reflexivity.
  - apply IH. exact H.
Qed.

Lemma skipn_none (s : buffer) (i : nat) :
  char_at s i = None -> skipn i s = [].
Proof.
  unfold char_at. intros H. apply nth_error_None in H.
  apply skipn_all2. exact H.
Qed.

Lemma char_at_skipn (s : buffer) (i : nat) :
  char_at s i = hd_error (skipn i s).
Proof. unfold char_at. symmetry. apply hd_error_skipn. Qed.


Section Literals.

Variable s : buffer.

(** A literal matches exactly when the buffer continues with it. *)
Lemma mt_lit (w : buffer) :
  forall i c k,
    mt s (lit w) i c k
    = if starts_with w (skipn i s) then k (i + length w) c else None.
Proof.
  induction w as [|a w IH]; intros i c k; simpl.
  - rewrite Nat.add_0_r. reflexivity.
  - destruct (char_at s i) as [b|] eqn:Hb.
    + rewrite (skipn_char _ _ _ Hb). destruct (same a b); simpl.
      * rewrite IH. replace (S i + length w) with (i + S (length w)) by lia.
        reflexivity.
      * reflexivity.
    + rewrite (skipn_none _ _ Hb). reflexivity.
Qed.

Lemma starts_with_run (w l : buffer) :
  starts_with w l = true ->
  forallb word_char w = true ->
  exists rest, run word_char l = w ++ rest.
Proof.
  revert l. induction w as [|a w IH]; intros l Hs Hw; simpl in *.
  - eauto.
  - destruct l as [|b l]; [discriminate|].
    apply andb_prop in Hs. destruct Hs as [Hab Hs].
    apply andb_prop in Hw. destruct Hw as [Ha Hw].
    apply same_eq in Hab. subst b. simpl. rewrite Ha.
    destruct (IH _ Hs Hw) as (rest & ->). eauto.
Qed.

Lemma run_starts (p : ascii -> bool) (l : buffer) :
  starts_with (run p l) l = true.
Proof.
  induction l as [|a l IH]; simpl; [reflexivity|].
  destruct (p a); simpl; [|reflexivity].
  rewrite same_refl. exact IH.
Qed.

Lemma run_all (p : ascii -> bool) (l : buffer) : forallb p (run p l) = true.
Proof.
  induction l as [|a l IH]; simpl; [reflexivity|].
  destruct (p a) eqn:Hp; simpl; [|reflexivity].
  rewrite Hp. exact IH.
Qed.

(** The character after the run, if any, is outside the class. *)
Lemma run_stops (p : ascii -> bool) (l : buffer) :
  match nth_error l (length (run p l)) with
  | Some a => p a = false
  | None => True
  end.
Proof.
  induction l as [|a l IH]; simpl; [exact I|].
  destruct (p a) eqn:Hp; simpl; [exact IH | exact Hp].
Qed.

Lemma run_inside (p : ascii -> bool) (l : buffer) (n : nat) :
  n < length (run p l) ->
  exists a, nth_error l n = Some a /\ p a = true.
Proof.
  revert n. induction l as [|a l IH]; simpl; intros n Hn.
  - lia.
  - destruct (p a) eqn:Hp; simpl in Hn; [|lia].
    destruct n as [|n]; simpl; [eauto|]. apply IH. lia.
Qed.

Lemma word_at_inside (i n : nat) :
  n < length (word_run s i) -> word_at s (i + n) = true.
Proof.
  unfold word_run, word_at, char_at. intros Hn.
  destruct (run_inside word_char (skipn i s) n Hn) as (a & Ha & Hp).
  rewrite nth_error_skipn in Ha. rewrite Ha. exact Hp.
Qed.

Lemma word_at_end (i : nat) : word_at s (i + length (word_run s i)) = false.
Proof.
  unfold word_run, word_at, char_at.
  assert (H := run_stops word_char (skipn i s)).
  rewrite nth_error_skipn in H.
  destruct (nth_error s (i + length (run word_char (skipn i s)))); auto.
Qed.

(** After a non-empty word there is a word boundary. *)
Lemma bnd_word_end (i : nat) :
  word_run s i <> [] -> bnd s (i + length (word_run s i)) = true.
Proof.
  intros Hne. unfold bnd. rewrite word_at_end.
  destruct (word_run s i) as [|a w] eqn:Hw; [congruence|].
  simpl length. replace (i + S (length w)) with (S (i + length w)) by lia.
  rewrite word_at_inside; [reflexivity|]. rewrite Hw. simpl. lia.
Qed.

(** Inside a word there is none. *)
Lemma bnd_word_inside (i n : nat) :
  0 < n < length (word_run s i) -> bnd s (i + n) = false.
Proof.
  intros Hn. unfold bnd.
  destruct n as [|n]; [lia|].
  replace (i + S n) with (S (i + n)) by lia.
  rewrite word_at_inside by lia.
  replace (S (i + n)) with (i + S n) by lia.
  rewrite word_at_inside by lia. reflexivity.
Qed.

(** One listed word followed by a word boundary. *)
Lemma mt_word (w : buffer) (i : nat) (c : caps) (k : cont) :
  identifier w = true ->
  mt s (lit w) i c (boundary_then s k)
  = if beq (word_run s i) w then k (i + length w) c else None.
Proof.
  intros Hid. rewrite mt_lit. unfold boundary_then.
  assert (Hw : forallb word_char w = true /\ w <> []).
  { destruct w; [discriminate|]. unfold identifier in Hid.
    apply andb_prop in Hid. split; [tauto | discriminate]. }
  destruct Hw as [Hw Hne].
  destruct (beq (word_run s i) w) eqn:He.
  - apply beq_eq in He. subst w.
    unfold word_run at 1. rewrite run_starts.
    rewrite bnd_word_end by exact Hne. reflexivity.
  - destruct (starts_with w (skipn i s)) eqn:Hs; [|reflexivity].
    destruct (starts_with_run _ _ Hs Hw) as (rest & Hr).
    fold (word_run s i) in Hr.
    destruct rest as [|b rest].
    + rewrite app_nil_r in Hr. rewrite Hr, beq_refl in He. discriminate.
    + rewrite bnd_word_inside; [reflexivity|].
      rewrite Hr, length_app. simpl.
      destruct w; [congruence | simpl; lia].
Qed.

(** The alternation of a word list followed by a word boundary: the
    word at the cursor has to be listed. *)
Lemma mt_words (ws : list buffer) (i : nat) (c : caps) (k : cont) :
  forallb identifier ws = true ->
  mt s (alts (map lit ws)) i c (boundary_then s k)
  = if memb (word_run s i) ws
    then k (i + length (word_run s i)) c
    else None.
Proof.
  induction ws as [|w ws IH]; intros Hid; simpl in Hid |- *.
  - destruct (char_at s i); reflexivity.
  - apply andb_prop in Hid. destruct Hid as [Hw Hws].
    rewrite mt_word by exact Hw. rewrite (IH Hws).
    destruct (beq (word_run s i) w) eqn:He; simpl.
    + apply beq_eq in He. rewrite He.
      destruct (k (i + length w) c) eqn:Hk; [reflexivity|].
      destruct (memb w ws); reflexivity.
    + reflexivity.
Qed.

(** A vocabulary rule. *)
Lemma keywords_match (ws : list buffer) (t : tok) (i : nat) :
  forallb identifier ws = true ->
  first_match s (_keywords ws t) i
  = if bnd s i && memb (word_run s i) ws
    then Some ([Span i (i + length (word_run s i)) t],
               i + length (word_run s i))
    else None.
Proof.
  intros Hid. unfold _keywords, words_. simpl.
  unfold try_rule, rexmatch. simpl fst. simpl snd.
  change (mt s (Bnd >> alts (map lit ws) >> Bnd) i []
             (fun j c => Some (j, c)))
    with (if bnd s i
          then mt s (alts (map lit ws)) i []
                  (boundary_then s (fun j c => Some (j, c)))
          else None).
  destruct (bnd s i); simpl; [|reflexivity].
  rewrite mt_words by exact Hid.
  destruct (memb (word_run s i) ws); reflexivity.
Qed.

End Literals.

Lemma first_match_app (s : buffer) (rs1 rs2 : list rule) (i : nat) :
  first_match s (rs1 ++ rs2) i
  = match first_match s rs1 i with
    | Some out => Some out
    | None => first_match s rs2 i
    end.
Proof.
  induction rs1 as [|r rs1 IH]; simpl; [reflexivity|].
  destruct (try_rule s i r); [reflexivity | exact IH].
Qed.

Lemma word_char_bracket : word_char "[" = false.
Proof. reflexivity. Qed.

(** The array-of-type rules: the word at the cursor is a listed type and
    a pair of brackets follows it. *)
Lemma arrays_match (s : buffer) (ws : list buffer) (i : nat) :
  forallb identifier ws = true ->
  first_match s (map array_rule ws) i
  = if memb (word_run s i) ws
       && starts_with (str "[]") (skipn (i + length (word_run s i)) s)
    then Some ([Span i (i + length (word_run s i) + 2) Keyword_Type],
               i + length (word_run s i) + 2)
    else None.
Proof.
  induction ws as [|w ws IH]; intros Hid; [reflexivity|].
  cbn [forallb] in Hid. apply andb_prop in Hid. destruct Hid as [Hw Hws].
  cbn [map first_match]. rewrite (IH Hws). clear IH.
  unfold try_rule, rexmatch, array_rule. cbn [fst snd emit].
  change (mt s (lit w >> lit (str "[]")) i [] (fun j c => Some (j, c)))
    with (mt s (lit w) i []
             (fun j c => mt s (lit (str "[]")) j c (fun j c => Some (j, c)))).
  rewrite mt_lit. cbv beta. rewrite mt_lit.
  unfold memb. cbn [existsb]. fold (memb (word_run s i) ws).
  destruct (beq (word_run s i) w) eqn:He; cbn [orb].
  - apply beq_eq in He. rewrite <- He.
    unfold word_run at 1. rewrite run_starts. fold (word_run s i).
    destruct (starts_with (str "[]") (skipn (i + length (word_run s i)) s)).
    + cbn [andb]. do 3 f_equal; change (length (str "[]")) with 2; lia.
    + rewrite andb_false_r. reflexivity.
  - destruct (starts_with w (skipn i s)) eqn:Hs; [|reflexivity].
    destruct (starts_with (str "[]") (skipn (i + length w) s)) eqn:Hb;
      [|reflexivity].
    exfalso.
    assert (Hchars : forallb word_char w = true).
    { destruct w; [discriminate|]. unfold identifier in Hw.
      apply andb_prop in Hw. tauto. }
    destruct (starts_with_run _ _ Hs Hchars) as (rest & Hr).
    fold (word_run s i) in Hr.
    destruct rest as [|b rest].
    + rewrite app_nil_r in Hr. rewrite Hr, beq_refl in He. discriminate.
    + assert (Hin : word_at s (i + length w) = true).
      { apply word_at_inside. rewrite Hr, length_app. simpl. lia. }
      unfold word_at in Hin. rewrite char_at_skipn in Hin.
      destruct (skipn (i + length w) s) as [|x l]; [discriminate|].
      simpl in Hb, Hin. apply andb_prop in Hb. destruct Hb as [Hx _].
      apply same_eq in Hx. subst x. rewrite word_char_bracket in Hin.
      discriminate.
Qed.

(** ** The rule table, rule by rule

    With identifiers in the vocabulary tables the first matching rule of
    the table is found by looking the word at the cursor up in the
    tables. *)

Lemma first_match_root (v : vocabulary) (s : buffer) (i : nat) :
  identifiers v = true ->
  first_match s (root v) i = reference v s i.
Proof.
  unfold identifiers, root, reference, listed, word_span. intros H.
  repeat (apply andb_prop in H; destruct H as [H ?]).
  repeat rewrite first_match_app.
  repeat rewrite keywords_match by assumption.
  rewrite arrays_match by assumption.
  destruct (first_match s composite_rules i); [reflexivity|].
  destruct (bnd s i && memb (word_run s i) (KEYWORDS v)); [reflexivity|].
  destruct (bnd s i && memb (word_run s i) (SPECIAL_NAMES v)); [reflexivity|].
  destruct (bnd s i && memb (word_run s i) (COMMON_ATTRIBUTES v));
    [reflexivity|].
  change (first_match s [namespaced_rule] i)
    with (match try_rule s i namespaced_rule with
          | Some out => Some out
          | None => None
          end).
  destruct (try_rule s i namespaced_rule); [reflexivity|].
  destruct (bnd s i && memb (word_run s i) (OPERATORS v)); [reflexivity|].
  destruct (memb (word_run s i) (TYPES v)
            && starts_with (str "[]") (skipn (i + length (word_run s i)) s));
    [reflexivity|].
  destruct (bnd s i && memb (word_run s i) (TYPES v)); [reflexivity|].
  rewrite <- first_match_app. reflexivity.
Qed.

(** ** Lexing without the tables

    The lexer consults the tables only for the identifiers it finds at
    the cursor.  When none of them is listed, the token stream is the
    one the rule table yields with empty tables, which can be computed
    for a given buffer whatever the vocabulary is. *)

Lemma memb_identifier (ws : list buffer) (w : buffer) :
  forallb identifier ws = true -> identifier w = false -> memb w ws = false.
Proof.
  induction ws as [|x ws IH]; simpl; intros Hid Hw; [reflexivity|].
  apply andb_prop in Hid. destruct Hid as [Hx Hws].
  rewrite (IH Hws Hw), orb_false_r.
  destruct (beq w x) eqn:He; [|reflexivity].
  apply beq_eq in He. congruence.
Qed.

Lemma unlisted_early (v : vocabulary) (late : bool) (w : buffer) :
  unlisted v (late, w) = true ->
  memb w (KEYWORDS v) = false
  /\ memb w (SPECIAL_NAMES v) = false
  /\ memb w (COMMON_ATTRIBUTES v) = false.
Proof.
  unfold unlisted. cbn [fst snd]. intros H.
  repeat (apply andb_prop in H; destruct H as [H ?]).
  repeat split; apply negb_true_iff; assumption.
Qed.

Lemma unlisted_late (v : vocabulary) (w : buffer) :
  unlisted v (true, w) = true ->
  memb w (OPERATORS v) = false /\ memb w (TYPES v) = false.
Proof.
  unfold unlisted. cbn [fst snd negb orb]. intros H.
  apply andb_prop in H. destruct H as [_ H].
  apply andb_prop in H. destruct H as [H1 H2].
  split; apply negb_true_iff; assumption.
Qed.

Lemma reference_static (v : vocabulary) (s : buffer) (i : nat) :
  identifiers v = true ->
  forallb (unlisted v) (probes_at s i) = true ->
  reference v s i = reference empty_vocabulary s i.
Proof.
  unfold identifiers, reference, probes_at, listed. intros H Hp.
  repeat (apply andb_prop in H; destruct H as [H ?]).
  destruct (first_match s composite_rules i); [reflexivity|].
  cbn [KEYWORDS SPECIAL_NAMES COMMON_ATTRIBUTES OPERATORS TYPES
       empty_vocabulary memb existsb].
  repeat rewrite andb_false_r. cbn [andb].
  destruct (identifier (word_run s i)) eqn:Hw.
  - destruct (try_rule s i namespaced_rule);
      cbn [forallb] in Hp; rewrite andb_true_r in Hp.
    + destruct (unlisted_early _ _ _ Hp) as (-> & -> & ->).
      repeat rewrite andb_false_r. reflexivity.
    + destruct (unlisted_early _ _ _ Hp) as (-> & -> & ->).
      destruct (unlisted_late _ _ Hp) as (-> & ->).
      repeat rewrite andb_false_r. reflexivity.
  - repeat rewrite memb_identifier by assumption.
    repeat rewrite andb_false_r. cbn [andb].
    destruct (try_rule s i namespaced_rule); reflexivity.
Qed.

Lemma step_static (v : vocabulary) (s : buffer) (i : nat) :
  identifiers v = true ->
  forallb (unlisted v) (probes_at s i) = true ->
  step (root v) s i = step (root empty_vocabulary) s i.
Proof.
  intros Hv Hp. unfold step.
  rewrite (first_match_root v s i Hv).
  rewrite (first_match_root empty_vocabulary s i) by reflexivity.
  rewrite (reference_static v s i Hv Hp). reflexivity.
Qed.

Lemma lex_loop_static (v : vocabulary) (s : buffer) :
  identifiers v = true ->
  forall fuel i,
    forallb (unlisted v) (probes s fuel i) = true ->
    lex_loop (root v) s fuel i = lex_loop (root empty_vocabulary) s fuel i.
Proof.
  intros Hv. induction fuel as [|fuel IH]; intros i Hp; simpl in Hp |- *.
  - reflexivity.
  - destruct (length s <=? i); [reflexivity|].
    rewrite forallb_app in Hp. apply andb_prop in Hp. destruct Hp as [Hp1 Hp2].
    rewrite (step_static v s i Hv Hp1).
    destruct (step (root empty_vocabulary) s i) as [spans j].
    simpl in Hp2. rewrite (IH j Hp2). reflexivity.
Qed.

(** The token stream of a buffer whose identifiers are not listed. *)
Lemma lex_static (v : vocabulary) (s : buffer)
      (ps : list (bool * buffer)) (out : option (list span * nat)) :
  identifiers v = true ->
  probes s (length s) 0 = ps ->
  forallb (unlisted v) ps = true ->
  lex empty_vocabulary s = out ->
  lex v s = out.
Proof.
  intros Hv <- Hp <-. unfold lex. apply lex_loop_static; assumption.
Qed.

(** ** Runs of a character class

    A star over a character class walks the run of that class at the
    cursor: the greedy star offers the continuation the longest prefix
    first, the lazy star the shortest. *)

Section Runs.

Variable s : buffer.

Lemma run_skipn_char (p : ascii -> bool) (i : nat) (a : ascii) :
  char_at s i = Some a -> p a = true ->
  run p (skipn i s) = a :: run p (skipn (S i) s).
Proof.
  intros Ha Hp. rewrite (skipn_char _ _ _ Ha). simpl. rewrite Hp. reflexivity.
Qed.

Lemma run_skipn_stop (p : ascii -> bool) (i : nat) (a : ascii) :
  char_at s i = Some a -> p a = false -> run p (skipn i s) = [].
Proof.
  intros Ha Hp. rewrite (skipn_char _ _ _ Ha). simpl. rewrite Hp. reflexivity.
Qed.

Lemma run_skipn_end (p : ascii -> bool) (i : nat) :
  char_at s i = None -> run p (skipn i s) = [].
Proof. intros Ha. rewrite (skipn_none _ _ Ha). reflexivity. Qed.

Lemma star_loop_greedy (p : ascii -> bool) (k : cont) (fuel : nat) :
  forall i c,
    length s - i <= fuel ->
    star_loop (mt s (Cls p)) true k fuel i c
    = longest k c i (run p (skipn i s)).
Proof.
  induction fuel as [|fuel IH]; intros i c Hf; simpl.
  - rewrite run_skipn_end; [reflexivity|].
    apply nth_error_None. lia.
  - destruct (char_at s i) as [a|] eqn:Ha.
    + destruct (p a) eqn:Hp.
      * rewrite (run_skipn_char _ _ _ Ha Hp). simpl.
        assert (Hlt : (i <? S i) = true) by (apply Nat.ltb_lt; lia).
        rewrite Hlt. rewrite IH by lia. reflexivity.
      * rewrite (run_skipn_stop _ _ _ Ha Hp). reflexivity.
    + rewrite (run_skipn_end _ _ Ha). reflexivity.
Qed.

Lemma star_loop_lazy (p : ascii -> bool) (k : cont) (fuel : nat) :
  forall i c,
    length s - i <= fuel ->
    star_loop (mt s (Cls p)) false k fuel i c
    = shortest k c i (run p (skipn i s)).
Proof.
  induction fuel as [|fuel IH]; intros i c Hf; simpl.
  - rewrite run_skipn_end by (apply nth_error_None; lia).
    simpl. destruct (k i c); reflexivity.
  - destruct (char_at s i) as [a|] eqn:Ha.
    + destruct (p a) eqn:Hp.
      * rewrite (run_skipn_char _ _ _ Ha Hp). simpl.
        assert (Hlt : (i <? S i) = true) by (apply Nat.ltb_lt; lia).
        rewrite Hlt. rewrite IH by lia. reflexivity.
      * rewrite (run_skipn_stop _ _ _ Ha Hp). simpl.
        destruct (k i c); reflexivity.
    + rewrite (run_skipn_end _ _ Ha). simpl. destruct (k i c); reflexivity.
Qed.

Lemma mt_star_greedy (p : ascii -> bool) (i : nat) (c : caps) (k : cont) :
  mt s (star (Cls p)) i c k = longest k c i (run p (skipn i s)).
Proof. apply star_loop_greedy. lia. Qed.

Lemma mt_star_lazy (p : ascii -> bool) (i : nat) (c : caps) (k : cont) :
  mt s (lazy_star (Cls p)) i c k = shortest k c i (run p (skipn i s)).
Proof. apply star_loop_lazy. lia. Qed.

(** One or more characters of a class, greedily. *)
Lemma mt_plus (p : ascii -> bool) (i : nat) (c : caps) (k : cont) :
  mt s (plus (Cls p)) i c k
  = match run p (skipn i s) with
    | [] => None
    | _ :: l => longest k c (S i) l
    end.
Proof.
  unfold plus.
  change (mt s (Cls p >> Star true (Cls p)) i c k)
    with (mt s (Cls p) i c (fun j c' => mt s (star (Cls p)) j c' k)).
  simpl mt at 1.
  destruct (char_at s i) as [a|] eqn:Ha.
  - destruct (p a) eqn:Hp.
    + rewrite (run_skipn_char _ _ _ Ha Hp). apply mt_star_greedy.
    + rewrite (run_skipn_stop _ _ _ Ha Hp). reflexivity.
  - rewrite (run_skipn_end _ _ Ha). reflexivity.
Qed.

(** When the continuation accepts the whole run, the greedy star
    stops there. *)
Lemma longest_all (k : cont) (c : caps) (l : buffer) :
  forall i res, k (i + length l) c = Some res -> longest k c i l = Some res.
Proof.
  induction l as [|a l IH]; simpl; intros i res H.
  - rewrite Nat.add_0_r in H. exact H.
  - rewrite (IH (S i) res); [reflexivity|].
    rewrite <- H. f_equal. lia.
Qed.

End Runs.

(** ** A composite declaration (C3) *)

(** C3: the line [custom double myAttr = 1.0] is lexed into a keyword
    span for custom, a whitespace span, a type span for double, a
    whitespace span, an attribute-name span for myAttr, a whitespace
    span, an operator span for the equals sign, a whitespace span and a
    number span for 1.0 .  The custom composite rule emits the first
    seven spans in one iteration; the whitespace before the number is
    emitted by the whitespace rule, whose category is [Text]. *)
Theorem C3_composite_declaration (v : vocabulary) :
  identifiers v = true ->
  lex v (str "custom double myAttr = 1.0")
  = Some ([Span 0 6 Keyword_Token; Span 6 7 Whitespace; Span 7 13 Keyword_Type;
           Span 13 14 Whitespace; Span 14 20 Name_Attribute;
           Span 20 21 Whitespace; Span 21 22 Operator; Span 22 23 Text;
           Span 23 26 Number], 3)
  /\ tokens_of v (str "custom double myAttr = 1.0")
     = Some [(Keyword_Token, "custom"); (Whitespace, " ");
             (Keyword_Type, "double"); (Whitespace, " ");
             (Name_Attribute, "myAttr"); (Whitespace, " "); (Operator, "=");
             (Text, " "); (Number, "1.0")]%string.
Proof.
  intros Hv.
  assert (H : lex v (str "custom double myAttr = 1.0")
              = Some ([Span 0 6 Keyword_Token; Span 6 7 Whitespace;
                       Span 7 13 Keyword_Type; Span 13 14 Whitespace;
                       Span 14 20 Name_Attribute; Span 20 21 Whitespace;
                       Span 21 22 Operator; Span 22 23 Text;
                       Span 23 26 Number], 3)).
  { apply (lex_static v _ []); [exact Hv | | reflexivity |];
      vm_compute; reflexivity. }
  split; [exact H|]. unfold tokens_of. rewrite H. vm_compute. reflexivity.
Qed.

Lemma C3_composite_declaration_witness :
  identifiers sample_vocabulary = true
  /\ lex sample_vocabulary (str "custom double myAttr = 1.0")
     = Some ([Span 0 6 Keyword_Token; Span 6 7 Whitespace;
              Span 7 13 Keyword_Type; Span 13 14 Whitespace;
              Span 14 20 Name_Attribute; Span 20 21 Whitespace;
              Span 21 22 Operator; Span 22 23 Text; Span 23 26 Number], 3).
Proof.
  split; [reflexivity|].
  apply (C3_composite_declaration sample_vocabulary). reflexivity.
Defined.

(** ** The first character of a match *)

Section FirstCharacter.

Variable s : buffer.

Lemma den_nullable (r : regex) :
  forall i c c', den s r i c i c' -> i <= length s -> nullable r = true.
Proof.
  induction r as [|p|r1 IH1 r2 IH2|r1 IH1 r2 IH2|g r1 IH1|n r1 IH1| | |];
    simpl; intros i c c' H Hi; try reflexivity.
  - destruct H as (_ & H & _). lia.
  - destruct H as (m & cm & H1 & H2).
    assert (B1 := den_bounds _ _ _ _ _ _ H1 Hi).
    assert (B2 : m + min_len r2 <= i <= length s)
      by (apply (den_bounds _ _ _ _ _ _ H2); lia).
    assert (m = i) by lia. subst m.
    rewrite (IH1 _ _ _ H1 Hi), (IH2 _ _ _ H2 Hi). reflexivity.
  - destruct H as [H|H].
    + rewrite (IH1 _ _ _ H Hi). reflexivity.
    + rewrite (IH2 _ _ _ H Hi). apply orb_true_r.
  - destruct H as (c0 & H & _). eapply IH1; eauto.
Qed.

Lemma den_starts (r : regex) :
  forall i c j c' a,
    den s r i c j c' -> i < j -> i <= length s ->
    char_at s i = Some a -> starts r a = true.
Proof.
  induction r as [|p|r1 IH1 r2 IH2|r1 IH1 r2 IH2|g r1 IH1|n r1 IH1| | |];
    simpl; intros i c j c' a H Hlt Hi Ha.
  - destruct H. lia.
  - destruct H as ((b & Hb & Hp) & _). congruence.
  - destruct H as (m & cm & H1 & H2).
    assert (B1 := den_bounds _ _ _ _ _ _ H1 Hi).
    destruct (Nat.eq_dec m i) as [->|Hne].
    + rewrite (den_nullable _ _ _ _ H1 Hi), (IH2 _ _ _ _ _ H2 Hlt Hi Ha).
      apply orb_true_r.
    + rewrite (IH1 _ _ _ _ _ H1) by (lia || assumption). reflexivity.
  - destruct H as [H|H].
    + rewrite (IH1 _ _ _ _ _ H Hlt Hi Ha). reflexivity.
    + rewrite (IH2 _ _ _ _ _ H Hlt Hi Ha). apply orb_true_r.
  - destruct H as [|i c m cm j c' Hd Hm Hit]; [lia|].
    eapply IH1; eauto.
  - destruct H as (c0 & H & _). eapply IH1; eauto.
  - destruct H as (_ & -> & _). lia.
  - destruct H as (_ & -> & _). lia.
  - destruct H as (_ & -> & _). lia.
Qed.

(** A consuming rule whose pattern cannot begin with the character at
    the cursor does not match there. *)
Lemma try_rule_starts (r : rule) (i : nat) (a : ascii) :
  char_at s i = Some a ->
  (1 <=? min_len (fst r)) = true ->
  starts (fst r) a = false ->
  try_rule s i r = None.
Proof.
  intros Ha Hmin Hst. unfold try_rule.
  destruct (rexmatch s (fst r) i) as [[j c]|] eqn:Hm; [|reflexivity].
  apply rexmatch_sound in Hm. apply Nat.leb_le in Hmin.
  assert (Hi : i <= length s) by (apply char_at_lt in Ha; lia).
  assert (B := den_bounds _ _ _ _ _ _ Hm Hi).
  rewrite (den_starts _ _ _ _ _ _ Hm) in Hst by (lia || assumption).
  discriminate.
Qed.

Lemma first_match_starts (rs : list rule) (i : nat) (a : ascii) :
  char_at s i = Some a ->
  forallb (fun r => (1 <=? min_len (fst r)) && negb (starts (fst r) a)) rs
  = true ->
  first_match s rs i = None.
Proof.
  intros Ha. induction rs as [|r rs IH]; simpl; intros H; [reflexivity|].
  apply andb_prop in H. destruct H as [Hr Hrs].
  apply andb_prop in Hr. destruct Hr as [Hmin Hst].
  apply negb_true_iff in Hst.
  rewrite (try_rule_starts r i a Ha Hmin Hst). auto.
Qed.

End FirstCharacter.

Lemma word_run_stop (s : buffer) (i : nat) (a : ascii) :
  char_at s i = Some a -> word_char a = false -> word_run s i = [].
Proof. intros Ha Hw. unfold word_run. eapply run_skipn_stop; eauto. Qed.

(** ** The semicolon (C5) *)

Lemma root_semicolon (v : vocabulary) :
  root v = before_semicolon v ++ semicolon_rule :: skipn 3 tail_rules.
Proof.
  unfold root, before_semicolon. repeat rewrite <- app_assoc. reflexivity.
Qed.

(** C5: a semicolon at a position where no earlier rule matches is
    emitted as a one-character span of the generic category, which is
    not the punctuation category. *)
Theorem C5_semicolon_generic (v : vocabulary) (s : buffer) (i : nat) :
  char_at s i = Some ";"%char ->
  first_match s (before_semicolon v) i = None ->
  step (root v) s i = ([Span i (S i) Generic], S i)
  /\ Generic <> Punctuation.
Proof.
  intros Ha Hnone. split; [|discriminate].
  unfold step. rewrite root_semicolon, first_match_app, Hnone.
  cbn [first_match]. unfold try_rule, rexmatch, semicolon_rule.
  cbn [fst snd chr mt]. rewrite Ha. reflexivity.
Qed.

Lemma C5_semicolon_generic_witness :
  char_at (str "a; b") 1 = Some ";"%char
  /\ first_match (str "a; b") (before_semicolon sample_vocabulary) 1 = None
  /\ step (root sample_vocabulary) (str "a; b") 1 = ([Span 1 2 Generic], 2)
  /\ Generic <> Punctuation.
Proof.
  split; [reflexivity|]. split; [reflexivity|].
  apply (C5_semicolon_generic sample_vocabulary (str "a; b") 1); reflexivity.
Defined.

(** With identifiers in the tables no earlier rule ever matches at a
    semicolon, so every semicolon the cursor reaches is a generic span. *)
Lemma semicolon_reached (v : vocabulary) (s : buffer) (i : nat) :
  identifiers v = true ->
  char_at s i = Some ";"%char ->
  first_match s (before_semicolon v) i = None.
Proof.
  unfold identifiers, before_semicolon. intros H Ha.
  repeat (apply andb_prop in H; destruct H as [H ?]).
  repeat rewrite first_match_app.
  repeat rewrite keywords_match by assumption.
  rewrite arrays_match by assumption.
  rewrite (word_run_stop s i _ Ha) by reflexivity.
  repeat rewrite memb_identifier by (assumption || reflexivity).
  repeat rewrite andb_false_r. cbn [andb].
  rewrite (first_match_starts s composite_rules i _ Ha) by reflexivity.
  rewrite (first_match_starts s [namespaced_rule] i _ Ha) by reflexivity.
  rewrite (first_match_starts s [punctuation_rule] i _ Ha) by reflexivity.
  apply (first_match_starts s _ i _ Ha). reflexivity.
Qed.

(** ** The hashbang rule (C4) *)

Section CommentRule.

Variable s : buffer.

(** The lazy run of the comment rule always reaches the end of the
    line. *)
Lemma shortest_eol (c : caps) (n : nat) :
  forall i, length s - i <= n ->
            exists j, shortest (at_eol s) c i (run dot_char (skipn i s)) = Some (j, c).
Proof.
  induction n as [|n IH]; intros i Hn.
  - assert (Ha : char_at s i = None) by (apply nth_error_None; lia).
    rewrite (run_skipn_end _ _ _ Ha). simpl. unfold at_eol, eol.
    rewrite Ha. eauto.
  - destruct (char_at s i) as [a|] eqn:Ha.
    + destruct (same LF a) eqn:Hlf.
      * assert (Hd : dot_char a = false) by (unfold dot_char; rewrite Hlf; reflexivity).
        rewrite (run_skipn_stop _ _ _ _ Ha Hd). simpl. unfold at_eol, eol.
        rewrite Ha, Hlf. eauto.
      * assert (Hd : dot_char a = true) by (unfold dot_char; rewrite Hlf; reflexivity).
        rewrite (run_skipn_char _ _ _ _ Ha Hd). simpl.
        unfold at_eol at 1. unfold eol. rewrite Ha, Hlf.
        apply IH. lia.
    + rewrite (run_skipn_end _ _ _ Ha). simpl. unfold at_eol, eol.
      rewrite Ha. eauto.
Qed.

(** The line-comment rule matches at every hash sign. *)
Lemma comment_rule_total (i : nat) :
  char_at s i = Some "#"%char ->
  exists j, try_rule s i comment_rule = Some ([Span i j Comment_Single], j).
Proof.
  intros Ha. unfold try_rule, rexmatch, comment_rule. cbn [fst snd].
  change (mt s (chr "#" >> lazy_star (Cls dot_char) >> Eol) i []
             (fun j c => Some (j, c)))
    with (mt s (chr "#") i []
             (fun j c => mt s (lazy_star (Cls dot_char)) j c (at_eol s))).
  cbn [chr mt]. rewrite Ha.
  change (same "#" "#") with true. cbv iota.
  rewrite mt_star_lazy.
  destruct (shortest_eol [] (length s) (S i)) as (j & Hj); [lia|].
  rewrite Hj. exists j. reflexivity.
Qed.

(** Wherever the hashbang rule matches, so does the line-comment rule
    that precedes it in the table. *)
Lemma hashbang_rule_shadowed (i : nat) :
  try_rule s i comment_rule = None -> try_rule s i hashbang_rule = None.
Proof.
  intros Hc.
  destruct (char_at s i) as [a|] eqn:Ha.
  - destruct (same "#" a) eqn:Hs.
    + apply same_eq in Hs. subst a.
      destruct (comment_rule_total i Ha) as (j & Hj). congruence.
    + apply (try_rule_starts s hashbang_rule i a Ha); [reflexivity|].
      cbn. rewrite Hs. reflexivity.
  - unfold try_rule.
    destruct (rexmatch s (fst hashbang_rule) i) as [[j c]|] eqn:Hm;
      [|reflexivity].
    apply rexmatch_sound in Hm.
    assert (Hi : i <= length s).
    { destruct (Nat.le_gt_cases i (length s)) as [Hle|Hgt]; [exact Hle|].
      exfalso. cbn in Hm. destruct Hm as (m & cm & (Hz & _) & _). lia. }
    assert (B := den_bounds _ _ _ _ _ _ Hm Hi).
    change (min_len (fst hashbang_rule)) with 7 in B.
    apply nth_error_None in Ha. lia.
Qed.

End CommentRule.

Lemma bygroups_cats (ts : list tok) (n : nat) (c : caps) (x : span) :
  In x (bygroups ts n c) -> In (cat x) ts.
Proof.
  revert n. induction ts as [|t ts IH]; simpl; intros n H; [exact H|].
  apply in_app_or in H. destruct H as [H|H].
  - destruct (group n c) as [[a b]|]; simpl in H; [|contradiction].
    destruct H as [<-|[]]. left. reflexivity.
  - right. eapply IH; eauto.
Qed.

Lemma emit_cats (a : action) (i j : nat) (c : caps) (x : span) :
  In x (emit a i j c) -> In (cat x) (cats_of a).
Proof.
  destruct a as [t|ts]; simpl.
  - intros [<-|[]]. left. reflexivity.
  - apply bygroups_cats.
Qed.

Lemma first_match_no_hashbang (s : buffer) (rs : list rule) (i j : nat)
      (spans : list span) :
  forallb no_hashbang rs = true ->
  first_match s rs i = Some (spans, j) ->
  forall x, In x spans -> cat x <> Comment_Hashbang.
Proof.
  induction rs as [|r rs IH]; simpl; intros Hok H x Hx; [discriminate|].
  apply andb_prop in Hok. destruct Hok as [Hr Hrs].
  unfold try_rule in H.
  destruct (rexmatch s (fst r) i) as [[j' c]|].
  - inversion H; subst. apply emit_cats in Hx.
    unfold no_hashbang in Hr. rewrite forallb_forall in Hr.
    specialize (Hr _ Hx). intros E. rewrite E in Hr. discriminate.
  - eapply IH; eauto.
Qed.

Lemma live_rules_no_hashbang (v : vocabulary) :
  forallb no_hashbang (live_rules v) = true.
Proof.
  unfold live_rules. repeat rewrite forallb_app.
  assert (Harr : forallb no_hashbang (map array_rule (TYPES v)) = true).
  { induction (TYPES v) as [|w ws IH]; simpl; [reflexivity | exact IH]. }
  rewrite Harr. reflexivity.
Qed.

(** The hashbang rule never decides an iteration. *)
Lemma hashbang_dead (v : vocabulary) (s : buffer) (i : nat) :
  first_match s (root v) i = first_match s (live_rules v) i.
Proof.
  unfold root, live_rules.
  change tail_rules
    with (firstn 12 tail_rules ++ hashbang_rule :: skipn 13 tail_rules) at 1.
  repeat rewrite first_match_app.
  destruct (first_match s (firstn 12 tail_rules) i) eqn:Hf; [reflexivity|].
  assert (Hc : try_rule s i comment_rule = None).
  { cbn [firstn tail_rules first_match] in Hf.
    destruct (try_rule s i comment_rule); [discriminate | reflexivity]. }
  cbn [first_match]. rewrite (hashbang_rule_shadowed s i Hc). reflexivity.
Qed.

(** No span of any token stream carries the hashbang category. *)
Lemma hashbang_never_emitted (v : vocabulary) (s : buffer) (fuel : nat) :
  forall i spans n,
    lex_loop (root v) s fuel i = Some (spans, n) ->
    forall x, In x spans -> cat x <> Comment_Hashbang.
Proof.
  induction fuel as [|fuel IH]; simpl; intros i spans n H x Hx.
  - destruct (length s <=? i); [|discriminate].
    inversion H; subst. contradiction.
  - destruct (length s <=? i).
    + inversion H; subst. contradiction.
    + unfold step in H. rewrite hashbang_dead in H.
      destruct (first_match s (live_rules v) i) as [[sp j]|] eqn:Hf.
      * destruct (lex_loop (root v) s fuel j) as [[rest m]|] eqn:Hl;
          [|discriminate].
        inversion H; subst. apply in_app_or in Hx. destruct Hx as [Hx|Hx].
        -- eapply first_match_no_hashbang; eauto.
           apply live_rules_no_hashbang.
        -- eapply IH; eauto.
      * destruct (lex_loop (root v) s fuel (S i)) as [[rest m]|] eqn:Hl;
          [|discriminate].
        inversion H; subst. destruct Hx as [<-|Hx]; [discriminate|].
        eapply IH; eauto.
Qed.

(** C4, evaluated: the text [#usda 1.0] at the very start of the buffer
    is emitted by the line-comment rule, with the category
    [Comment_Single], exactly as it is after a line feed.  The
    line-comment rule precedes the hashbang rule in the table and matches
    wherever the hashbang rule does. *)
Theorem C4_hashbang_at_start (v : vocabulary) :
  identifiers v = true ->
  lex v (str "#usda 1.0") = Some ([Span 0 9 Comment_Single], 1)
  /\ lex v (LF :: str "#usda 1.0")
     = Some ([Span 0 1 Text; Span 1 10 Comment_Single], 2).
Proof.
  intros Hv. split.
  - apply (lex_static v _ []); [exact Hv | | reflexivity |];
      vm_compute; reflexivity.
  - apply (lex_static v _ []); [exact Hv | | reflexivity |];
      vm_compute; reflexivity.
Qed.

Lemma C4_hashbang_at_start_witness :
  identifiers sample_vocabulary = true
  /\ lex sample_vocabulary (str "#usda 1.0") = Some ([Span 0 9 Comment_Single], 1)
  /\ lex sample_vocabulary (LF :: str "#usda 1.0")
     = Some ([Span 0 1 Text; Span 1 10 Comment_Single], 2).
Proof.
  split; [reflexivity|].
  apply (C4_hashbang_at_start sample_vocabulary). reflexivity.
Defined.

(** ** The single-line string rule (C6) *)

Lemma skipn_cons_inv (s : buffer) (i : nat) (a : ascii) (l : buffer) :
  skipn i s = a :: l -> char_at s i = Some a /\ skipn (S i) s = l.
Proof.
  intros H. split.
  - rewrite char_at_skipn, H. reflexivity.
  - change (S i) with (1 + i). rewrite <- skipn_skipn, H. reflexivity.
Qed.

Lemma run_app (p : ascii -> bool) (l1 l2 : buffer) :
  forallb p l1 = true -> run p (l1 ++ l2) = l1 ++ run p l2.
Proof.
  induction l1 as [|a l1 IH]; simpl; intros H; [reflexivity|].
  apply andb_prop in H. destruct H as [Ha Hl]. rewrite Ha, (IH Hl). reflexivity.
Qed.

Lemma run_nth (p : ascii -> bool) (l : buffer) (n : nat) :
  n < length (run p l) -> nth_error l n = nth_error (run p l) n.
Proof.
  revert n. induction l as [|a l IH]; simpl; intros n Hn; [lia|].
  destruct (p a); simpl in Hn; [|lia].
  destruct n as [|n]; simpl; [reflexivity|]. apply IH. lia.
Qed.

Lemma longest_none (k : cont) (c : caps) (l : buffer) :
  forall i, (forall n, n <= length l -> k (i + n) c = None) ->
            longest k c i l = None.
Proof.
  induction l as [|a l IH]; simpl; intros i H.
  - rewrite <- (Nat.add_0_r i). apply H. lia.
  - rewrite IH.
    + rewrite <- (Nat.add_0_r i). apply H. lia.
    + intros n Hn. replace (S i + n) with (i + S n) by lia. apply H. lia.
Qed.

Section QuotedRule.

Variable s : buffer.
Variable q : ascii.
Hypothesis q_not_lf : same LF q = false.

Lemma closing_at (j : nat) (c : caps) :
  closing s q j c
  = match char_at s j with
    | Some a => if same q a then Some (S j, c) else None
    | None => None
    end.
Proof. reflexivity. Qed.

(** No quote closes the match in a quote-free stretch of the line or at
    its end. *)
Lemma closing_none (j : nat) (c : caps) (rest : buffer) :
  skipn j s = rest ->
  existsb (same q) (run dot_char rest) = false ->
  forall n, n <= length (run dot_char rest) -> closing s q (j + n) c = None.
Proof.
  intros Hs Hq n Hn. rewrite closing_at. unfold char_at.
  rewrite <- nth_error_skipn, Hs.
  destruct (Nat.eq_dec n (length (run dot_char rest))) as [->|Hne].
  - assert (H := run_stops dot_char rest).
    destruct (nth_error rest (length (run dot_char rest))) as [a|];
      [|reflexivity].
    unfold dot_char in H. apply negb_false_iff in H. apply same_eq in H.
    subst a. destruct (same q LF) eqn:E; [|reflexivity].
    apply same_eq in E. subst q. rewrite same_refl in q_not_lf. discriminate.
  - rewrite (run_nth dot_char rest n) by lia.
    destruct (nth_error (run dot_char rest) n) as [a|] eqn:Ha; [|reflexivity].
    apply nth_error_In in Ha.
    destruct (same q a) eqn:E; [|reflexivity].
    assert (Hex : existsb (same q) (run dot_char rest) = true)
      by (apply existsb_exists; eauto).
    congruence.
Qed.

(** The greedy run stops at the last quote of the line. *)
Lemma longest_last_quote (c : caps) (rest : buffer) (body : buffer) :
  existsb (same q) (run dot_char rest) = false ->
  forall j,
    skipn j s = body ++ q :: rest ->
    longest (closing s q) c j (body ++ q :: run dot_char rest)
    = Some (S (j + length body), c).
Proof.
  intros Hq. induction body as [|x body IH]; intros j Hs; simpl in Hs |- *.
  - apply skipn_cons_inv in Hs. destruct Hs as [Ha Hs].
    rewrite (longest_none (closing s q) c (run dot_char rest) (S j)).
    + rewrite closing_at, Ha, same_refl, Nat.add_0_r. reflexivity.
    + apply closing_none; assumption.
  - apply skipn_cons_inv in Hs. destruct Hs as [Ha Hs].
    rewrite (IH (S j) Hs). do 2 f_equal. lia.
Qed.

Lemma quoted_rule_last (i : nat) (body rest : buffer) :
  skipn i s = q :: body ++ q :: rest ->
  forallb dot_char body = true ->
  existsb (same q) (run dot_char rest) = false ->
  try_rule s i (quoted_rule q)
  = Some ([Span i (i + length body + 2) String_], i + length body + 2).
Proof.
  intros Hs Hbody Hrest.
  apply skipn_cons_inv in Hs. destruct Hs as [Ha Hs].
  unfold try_rule, rexmatch, quoted_rule. cbn [fst snd].
  change (mt s (chr q >> star (Cls dot_char) >> chr q) i []
             (fun j c => Some (j, c)))
    with (mt s (chr q) i []
             (fun j c => mt s (star (Cls dot_char)) j c (closing s q))).
  cbn [chr mt]. rewrite Ha, same_refl.
  rewrite mt_star_greedy, Hs, run_app by exact Hbody.
  assert (Hdq : dot_char q = true)
    by (unfold dot_char; rewrite q_not_lf; reflexivity).
  cbn [run]. rewrite Hdq.
  rewrite (longest_last_quote [] rest body Hrest (S i) Hs).
  cbn [emit]. repeat f_equal; lia.
Qed.

End QuotedRule.

(** C6: the single-line string rule is greedy up to the last quote of
    the line.  When the cursor is on a quote, the line continues with
    [body] and a second quote, and no further quote follows on the line,
    the rule matches through that last quote whatever quotes [body]
    holds; lexing the two quoted fragments a and b yields one string
    span over all seven characters, not one span per fragment. *)
Theorem C6_quoted_string_greedy
        (v : vocabulary) (s : buffer) (q : ascii) (i : nat)
        (body rest : buffer) :
  identifiers v = true ->
  same LF q = false ->
  skipn i s = q :: body ++ q :: rest ->
  forallb dot_char body = true ->
  existsb (same q) (run dot_char rest) = false ->
  try_rule s i (quoted_rule q)
  = Some ([Span i (i + length body + 2) String_], i + length body + 2)
  /\ lex v q_a_q_b = Some ([Span 0 7 String_], 1).
Proof.
  intros Hv Hq Hs Hbody Hrest. split.
  - apply (quoted_rule_last s q Hq i body rest); assumption.
  - apply (lex_static v _ []); [exact Hv | | reflexivity |];
      vm_compute; reflexivity.
Qed.

Lemma C6_quoted_string_greedy_witness :
  identifiers sample_vocabulary = true
  /\ try_rule q_a_q_b 0 (quoted_rule DQUOTE) = Some ([Span 0 7 String_], 7)
  /\ lex sample_vocabulary q_a_q_b = Some ([Span 0 7 String_], 1).
Proof.
  split; [reflexivity|].
  apply (C6_quoted_string_greedy
           sample_vocabulary q_a_q_b DQUOTE 0
           ["a"; DQUOTE; " "; DQUOTE; "b"]%char []); reflexivity.
Defined.

(** ** Whole-word keywords (C7) *)

Lemma firstn_run (p : ascii -> bool) (l : buffer) :
  firstn (length (run p l)) l = run p l.
Proof.
  induction l as [|a l IH]; simpl; [reflexivity|].
  destruct (p a); simpl; [rewrite IH|]; reflexivity.
Qed.








(** ** Namespaced attributes (C8) *)


Section NamespacedRule.

Variable s : buffer.



End NamespacedRule.




(** ** The anatomy of a composite match (C9, C10) *)

Lemma starts_with_firstn (w l : buffer) :
  starts_with w l = true -> firstn (length w) l = w.
Proof.
  revert l. induction w as [|a w IH]; intros l H; simpl in *; [reflexivity|].
  destruct l as [|b l]; [discriminate|].
  apply andb_prop in H. destruct H as [Hab H].
  apply same_eq in Hab. subst b. rewrite (IH l H). reflexivity.
Qed.

Section Anatomy.

Variable s : buffer.

Lemma den_seq_inv (r1 r2 : regex) (i : nat) (c : caps) (j : nat) (c' : caps) :
  den s (r1 >> r2) i c j c' ->
  exists m cm, den s r1 i c m cm /\ den s r2 m cm j c'.
Proof. intros H. exact H. Qed.

Lemma den_lit (w : buffer) :
  forall i c j c',
    den s (lit w) i c j c' ->
    j = i + length w /\ c' = c /\ sub s i j = w.
Proof.
  induction w as [|a w IH]; intros i c j c' H.
  - destruct H as [-> ->]. rewrite Nat.add_0_r, sub_nil. auto.
  - apply den_seq_inv in H. destruct H as (m & cm & H1 & H2).
    destruct H1 as ((b & Hb & Hab) & -> & ->).
    apply same_eq in Hab. subst b.
    destruct (IH _ _ _ _ H2) as (-> & -> & Hsub).
    cbn [length]. split; [lia|]. split; [reflexivity|].
    rewrite <- (sub_app s i (S i)) by lia. rewrite Hsub.
    unfold sub. replace (S i - i) with 1 by lia.
    rewrite (skipn_char _ _ _ Hb). reflexivity.
Qed.

Lemma sub_cons (i j : nat) (a : ascii) :
  char_at s i = Some a -> i < j -> sub s i j = a :: sub s (S i) j.
Proof.
  intros Ha Hlt. rewrite <- (sub_app s i (S i) j) by lia.
  unfold sub at 1. replace (S i - i) with 1 by lia.
  rewrite (skipn_char _ _ _ Ha). reflexivity.
Qed.

Lemma den_iter_cls (p : ascii -> bool) (i : nat) (c : caps) (j : nat)
      (c' : caps) :
  iter (den s (Cls p)) i c j c' ->
  c' = c /\ i <= j /\ forallb p (sub s i j) = true.
Proof.
  intros H. induction H as [i c|i c m cm j c' Hd Hlt Hit IH].
  - rewrite sub_nil. auto.
  - destruct Hd as ((a & Ha & Hp) & -> & ->).
    destruct IH as (-> & Hle & Hall).
    split; [reflexivity|]. split; [lia|].
    rewrite (sub_cons i j a Ha) by lia. simpl. rewrite Hp. exact Hall.
Qed.

Lemma den_plus_cls (p : ascii -> bool) (i : nat) (c : caps) (j : nat)
      (c' : caps) :
  den s (plus (Cls p)) i c j c' ->
  c' = c /\ i < j /\ forallb p (sub s i j) = true.
Proof.
  intros H. apply den_seq_inv in H. destruct H as (m & cm & H1 & H2).
  destruct H1 as ((a & Ha & Hp) & -> & ->).
  apply den_iter_cls in H2. destruct H2 as (-> & Hle & Hall).
  split; [reflexivity|]. split; [lia|].
  rewrite (sub_cons i j a Ha) by lia. simpl. rewrite Hp. exact Hall.
Qed.

Lemma den_grp_plus (n : nat) (p : ascii -> bool) (i : nat) (c : caps)
      (j : nat) (c' : caps) :
  den s (Grp n (plus (Cls p))) i c j c' ->
  i < j /\ c' = (n, (i, j)) :: c /\ forallb p (sub s i j) = true.
Proof.
  intros (c0 & H & ->). apply den_plus_cls in H.
  destruct H as (-> & Hlt & Hall). auto.
Qed.

Lemma den_grp_star (n : nat) (p : ascii -> bool) (i : nat) (c : caps)
      (j : nat) (c' : caps) :
  den s (Grp n (star (Cls p))) i c j c' ->
  i <= j /\ c' = (n, (i, j)) :: c /\ forallb p (sub s i j) = true.
Proof.
  intros (c0 & H & ->). apply den_iter_cls in H.
  destruct H as (-> & Hlt & Hall). auto.
Qed.

Lemma den_grp_chr (n : nat) (a : ascii) (i : nat) (c : caps) (j : nat)
      (c' : caps) :
  den s (Grp n (chr a)) i c j c' ->
  j = S i /\ char_at s i = Some a /\ c' = (n, (i, S i)) :: c.
Proof.
  intros (c0 & ((b & Hb & Hab) & -> & ->) & ->).
  apply same_eq in Hab. subst b. auto.
Qed.

Lemma den_grp_lit (n : nat) (w : buffer) (i : nat) (c : caps) (j : nat)
      (c' : caps) :
  den s (Grp n (lit w)) i c j c' ->
  j = i + length w /\ c' = (n, (i, j)) :: c /\ sub s i j = w.
Proof.
  intros (c0 & H & ->). apply den_lit in H. destruct H as (-> & -> & Hsub).
  auto.
Qed.

Lemma den_plus_first (p : ascii -> bool) (r : regex) (i : nat) (c : caps)
      (j : nat) (c' : caps) :
  den s (plus (Cls p) >> r) i c j c' ->
  exists a, char_at s i = Some a /\ p a = true.
Proof.
  intros H. apply den_seq_inv in H. destruct H as (m & cm & H & _).
  apply den_seq_inv in H. destruct H as (m' & cm' & H & _).
  destruct H as (H & _). exact H.
Qed.

Lemma word_at_char (i : nat) (a : ascii) :
  char_at s i = Some a -> word_char a = true -> word_at s i = true.
Proof. intros Ha Hw. unfold word_at. rewrite Ha. exact Hw. Qed.

Lemma den_TYPE (n : nat) (i : nat) (c : caps) (j : nat) (c' : caps) :
  den s (_TYPE n) i c j c' -> i <= length s ->
  i < j /\ c' = (n, (i, j)) :: c /\ word_at s i = true.
Proof.
  intros (c0 & H & ->) Hi.
  assert (B := den_bounds _ _ _ _ _ _ H Hi). cbn in B.
  destruct (den_plus_first _ _ _ _ _ _ H) as (a & Ha & Hw).
  apply no_groups_den in H; [|reflexivity]. subst c0.
  split; [lia|]. split; [reflexivity|]. eapply word_at_char; eauto.
Qed.

(** The attribute name and its optional time-samples suffix. *)
Lemma den_BASE_ATTRIBUTE (n : nat) (i : nat) (c : caps) (j : nat) (c' : caps) :
  den s (_BASE_ATTRIBUTE n) i c j c' -> i <= length s ->
  exists m (sfx : bool),
    i < m
    /\ word_at s i = true
    /\ j = (if sfx then m + 12 else m)
    /\ (sfx = true ->
        sub s m (m + 1) = str "." /\ sub s (m + 1) (m + 12) = str "timeSamples")
    /\ c' = (if sfx
             then [(n + 2, (m + 1, m + 12)); (n + 1, (m, m + 1))]
             else []) ++ (n, (i, m)) :: c.
Proof.
  intros H Hi. unfold _BASE_ATTRIBUTE in H.
  apply den_seq_inv in H. destruct H as (m & cm & H1 & H2).
  destruct H1 as (c0 & H1 & ->).
  assert (B := den_bounds _ _ _ _ _ _ H1 Hi). cbn in B.
  destruct (den_plus_first _ _ _ _ _ _ H1) as (a & Ha & Hw).
  apply (word_at_char _ _ Ha) in Hw.
  apply no_groups_den in H1; [|reflexivity]. subst c0.
  exists m. destruct H2 as [H2|H2].
  - exists true. apply den_seq_inv in H2. destruct H2 as (m' & cm' & Hdot & Hts).
    apply den_grp_chr in Hdot. destruct Hdot as (-> & Hdot & ->).
    apply den_grp_lit in Hts. destruct Hts as (-> & -> & Hsub).
    change (length (str "timeSamples")) with 11 in *.
    replace (S m + 11) with (m + 12) in * by lia.
    replace (S m) with (m + 1) in * by lia.
    repeat split; try lia; try assumption; try reflexivity.
    rewrite (sub_cons m (m + 1) _ Hdot) by lia.
    replace (S m) with (m + 1) by lia. rewrite sub_nil. reflexivity.
  - destruct H2 as [-> ->]. exists false.
    repeat split; try lia; try assumption; try reflexivity.
Qed.

End Anatomy.

Section InBuffer.

Variable s : buffer.

Lemma den_mono (r : regex) :
  forall i c j c', den s r i c j c' -> i <= j.
Proof.
  induction r as [|p|r1 IH1 r2 IH2|r1 IH1 r2 IH2|g r1 IH1|n r1 IH1| | |];
    simpl; intros i c j c' H.
  - destruct H; subst; lia.
  - destruct H as (_ & -> & _). lia.
  - destruct H as (m & cm & H1 & H2). apply IH1 in H1. apply IH2 in H2. lia.
  - destruct H as [H|H]; eauto.
  - induction H; lia.
  - destruct H as (c0 & H & _). eauto.
  - destruct H as (_ & -> & _). lia.
  - destruct H as (_ & -> & _). lia.
  - destruct H as (_ & -> & _). lia.
Qed.

(** A consuming pattern only matches inside the buffer. *)
Lemma den_inside (r : regex) :
  forall i c j c', den s r i c j c' -> 1 <= min_len r -> i < length s.
Proof.
  induction r as [|p|r1 IH1 r2 IH2|r1 IH1 r2 IH2|g r1 IH1|n r1 IH1| | |];
    simpl; intros i c j c' H Hmin; try lia.
  - destruct H as ((a & Ha & _) & _). eapply char_at_lt; eauto.
  - destruct H as (m & cm & H1 & H2).
    destruct (min_len r1) eqn:E.
    + apply den_mono in H1. apply IH2 in H2; lia.
    + apply IH1 in H1; lia.
  - destruct H as [H|H]; [apply IH1 in H | apply IH2 in H]; lia.
  - destruct H as (c0 & H & _). eauto.
Qed.

End InBuffer.

Lemma den_decl_tail (s : buffer) (p : ascii -> bool) (n i : nat) (c : caps)
      (j : nat) (c' : caps) :
  den s (decl_tail p n) i c j c' -> i <= length s ->
  exists m1 m2 m3 m5 sfx,
    decl_facts s p i m1 m2 m3 m5 j sfx
    /\ c' = decl_caps n i m1 m2 m3 m5 j sfx c.
Proof.
  intros H Hi. unfold decl_tail in H.
  apply den_seq_inv in H. destruct H as (m1 & c1 & Ht & H).
  assert (B1 := den_bounds _ _ _ _ _ _ Ht Hi).
  apply den_TYPE in Ht; [|exact Hi]. destruct Ht as (Hlt1 & -> & Hw1).
  apply den_seq_inv in H. destruct H as (m2 & c2 & Hw & H).
  assert (B2 : m1 + _ <= m2 <= length s)
    by (apply (den_bounds _ _ _ _ _ _ Hw); lia).
  apply den_grp_plus in Hw. destruct Hw as (Hlt2 & -> & Hall2).
  apply den_seq_inv in H. destruct H as (m4 & c4 & Ha & H).
  assert (B4 : m2 + _ <= m4 <= length s)
    by (apply (den_bounds _ _ _ _ _ _ Ha); lia).
  apply den_BASE_ATTRIBUTE in Ha; [|lia].
  destruct Ha as (m3 & sfx & Hlt3 & Hw3 & -> & Hsfx & ->).
  apply den_seq_inv in H. destruct H as (m5 & c5 & Hs & He).
  apply den_grp_star in Hs. destruct Hs as (Hle5 & -> & Hall5).
  apply den_grp_chr in He. destruct He as (-> & Heq & ->).
  exists m1, m2, m3, m5, sfx. split.
  - unfold decl_facts, suffix_end. repeat split; try assumption; try lia;
      apply Hsfx; assumption.
  - unfold decl_caps, suffix_end. destruct sfx; reflexivity.
Qed.

Lemma custom_rule_modifier : custom_rule = modifier_rule (str "custom").
Proof. reflexivity. Qed.

Lemma uniform_rule_modifier : uniform_rule = modifier_rule (str "uniform").
Proof. reflexivity. Qed.

Section RuleAnatomy.

Variable s : buffer.

Lemma modifier_rule_anatomy (kw : buffer) (i j : nat) (spans : list span) :
  try_rule s i (modifier_rule kw) = Some (spans, j) ->
  exists m0 m1 m2 m3 m5 sfx,
    spans = [Span i (i + length kw) Keyword_Token;
             Span (i + length kw) m0 Whitespace]
            ++ decl_spans m0 m1 m2 m3 m5 j sfx
    /\ sub s i (i + length kw) = kw
    /\ i + length kw < m0
    /\ forallb blank_char (sub s (i + length kw) m0) = true
    /\ decl_facts s space_char m0 m1 m2 m3 m5 j sfx.
Proof.
  unfold try_rule. intros H.
  destruct (rexmatch s (fst (modifier_rule kw)) i) as [[j' c]|] eqn:Hm;
    [|discriminate].
  inversion H; subst j' spans. clear H.
  apply rexmatch_sound in Hm. cbn [fst modifier_rule] in Hm.
  assert (Hi : i < length s).
  { eapply den_inside; [exact Hm|]. cbn [min_len plus _WHITESPACE]. lia. }
  apply den_seq_inv in Hm. destruct Hm as (a & ca & Hkw & Hm).
  assert (Ba : i + _ <= a <= length s)
    by (apply (den_bounds _ _ _ _ _ _ Hkw); lia).
  apply den_grp_lit in Hkw. destruct Hkw as (-> & -> & Hsub).
  apply den_seq_inv in Hm. destruct Hm as (m0 & c0 & Hw & Hm).
  assert (B0 : i + length kw + _ <= m0 <= length s)
    by (apply (den_bounds _ _ _ _ _ _ Hw); lia).
  apply den_grp_plus in Hw. destruct Hw as (Hlt & -> & Hall).
  apply den_decl_tail in Hm; [|lia].
  destruct Hm as (m1 & m2 & m3 & m5 & sfx & Hf & ->).
  exists m0, m1, m2, m3, m5, sfx.
  split; [|split; [exact Hsub|split; [lia|split; [exact Hall|exact Hf]]]].
  unfold decl_caps, decl_spans, suffix_spans. destruct sfx; reflexivity.
Qed.

Lemma custom_uniform_rule_anatomy (i j : nat) (spans : list span) :
  try_rule s i custom_uniform_rule = Some (spans, j) ->
  exists m0 n0 m1 m2 m3 m5 sfx,
    spans = [Span i (i + 6) Keyword_Token; Span (i + 6) m0 Whitespace;
             Span m0 (m0 + 7) Keyword_Token; Span (m0 + 7) n0 Whitespace]
            ++ decl_spans n0 m1 m2 m3 m5 j sfx
    /\ sub s i (i + 6) = str "custom"
    /\ i + 6 < m0
    /\ forallb blank_char (sub s (i + 6) m0) = true
    /\ sub s m0 (m0 + 7) = str "uniform"
    /\ m0 + 7 < n0
    /\ forallb space_char (sub s (m0 + 7) n0) = true
    /\ decl_facts s space_char n0 m1 m2 m3 m5 j sfx.
Proof.
  unfold try_rule. intros H.
  destruct (rexmatch s (fst custom_uniform_rule) i) as [[j' c]|] eqn:Hm;
    [|discriminate].
  inversion H; subst j' spans. clear H.
  apply rexmatch_sound in Hm.
  assert (Hi : i < length s) by (eapply den_inside; [exact Hm | cbn; lia]).
  change (fst custom_uniform_rule)
    with (Grp 1 (lit (str "custom")) >> _WHITESPACE 2
          >> Grp 3 (lit (str "uniform")) >> Grp 4 (plus (Cls space_char))
          >> decl_tail space_char 5) in Hm.
  apply den_seq_inv in Hm. destruct Hm as (a & ca & Hkw & Hm).
  assert (Ba : i + _ <= a <= length s)
    by (apply (den_bounds _ _ _ _ _ _ Hkw); lia).
  apply den_grp_lit in Hkw. destruct Hkw as (-> & -> & Hsub).
  change (length (str "custom")) with 6 in *.
  apply den_seq_inv in Hm. destruct Hm as (m0 & c0 & Hw & Hm).
  assert (B0 : i + 6 + _ <= m0 <= length s)
    by (apply (den_bounds _ _ _ _ _ _ Hw); lia).
  apply den_grp_plus in Hw. destruct Hw as (Hlt & -> & Hall).
  apply den_seq_inv in Hm. destruct Hm as (b & cb & Hun & Hm).
  assert (Bb : m0 + _ <= b <= length s)
    by (apply (den_bounds _ _ _ _ _ _ Hun); lia).
  apply den_grp_lit in Hun. destruct Hun as (-> & -> & Hsub').
  change (length (str "uniform")) with 7 in *.
  apply den_seq_inv in Hm. destruct Hm as (n0 & c1 & Hw' & Hm).
  assert (B1 : m0 + 7 + _ <= n0 <= length s)
    by (apply (den_bounds _ _ _ _ _ _ Hw'); lia).
  apply den_grp_plus in Hw'. destruct Hw' as (Hlt' & -> & Hall').
  apply den_decl_tail in Hm; [|lia].
  destruct Hm as (m1 & m2 & m3 & m5 & sfx & Hf & ->).
  exists m0, n0, m1, m2, m3, m5, sfx.
  split; [|split; [exact Hsub|split; [lia|split; [exact Hall|]]]];
    [|split; [exact Hsub'|split; [lia|split; [exact Hall'|exact Hf]]]].
  unfold decl_caps, decl_spans, suffix_spans. destruct sfx; reflexivity.
Qed.

Lemma bare_type_rule_anatomy (i j : nat) (spans : list span) :
  try_rule s i bare_type_rule = Some (spans, j) ->
  exists m1 m2 m3 m5 sfx,
    spans = decl_spans i m1 m2 m3 m5 j sfx
    /\ decl_facts s blank_char i m1 m2 m3 m5 j sfx.
Proof.
  unfold try_rule. intros H.
  destruct (rexmatch s (fst bare_type_rule) i) as [[j' c]|] eqn:Hm;
    [|discriminate].
  inversion H; subst j' spans. clear H.
  apply rexmatch_sound in Hm.
  assert (Hi : i < length s) by (eapply den_inside; [exact Hm | cbn; lia]).
  change (fst bare_type_rule) with (decl_tail blank_char 1) in Hm.
  apply den_decl_tail in Hm; [|lia].
  destruct Hm as (m1 & m2 & m3 & m5 & sfx & Hf & ->).
  exists m1, m2, m3, m5, sfx. split; [|assumption].
  unfold decl_caps, decl_spans, suffix_spans. destruct sfx; reflexivity.
Qed.

End RuleAnatomy.

(** ** The time-samples suffix (C10) *)





(** ** The separator after the first word (C9) *)

Lemma word_not_space (a : ascii) : word_char a = true -> space_char a = false.
Proof.
  destruct a as [[] [] [] [] [] [] [] []]; intros H;
    solve [reflexivity | discriminate H].
Qed.

Lemma blank_is_space (a : ascii) : blank_char a = true -> space_char a = true.
Proof.
  unfold blank_char. intros H. apply orb_prop in H.
  destruct H as [H|H]; apply same_eq in H; subst a; reflexivity.
Qed.

Lemma blank_no_lf (l : buffer) :
  forallb blank_char l = true -> existsb (same LF) l = false.
Proof.
  induction l as [|a l IH]; simpl; intros H; [reflexivity|].
  apply andb_prop in H. destruct H as [Ha Hl]. rewrite (IH Hl), orb_false_r.
  destruct (same LF a) eqn:E; [|reflexivity].
  apply same_eq in E. subst a. discriminate.
Qed.

Lemma forallb_blank_space (l : buffer) :
  forallb blank_char l = true -> forallb space_char l = true.
Proof.
  induction l as [|a l IH]; simpl; intros H; [reflexivity|].
  apply andb_prop in H. destruct H as [Ha Hl].
  rewrite (blank_is_space a Ha), (IH Hl). reflexivity.
Qed.

(** A stretch of the class that is followed by a character outside it is
    the whole run. *)
Lemma run_exact (s : buffer) (p : ascii -> bool) (a b : nat) (x : ascii) :
  a <= b ->
  forallb p (sub s a b) = true ->
  char_at s b = Some x -> p x = false ->
  run p (skipn a s) = sub s a b.
Proof.
  intros Hab Hall Hx Hp.
  assert (Hsplit : skipn a s = sub s a b ++ skipn b s).
  { unfold sub. rewrite <- (firstn_skipn (b - a) (skipn a s)) at 1.
    rewrite skipn_skipn. replace (b - a + a) with b by lia. reflexivity. }
  rewrite Hsplit, run_app by exact Hall.
  rewrite (run_skipn_stop s p b x Hx Hp). apply app_nil_r.
Qed.

Lemma sub_head (s : buffer) (a b : nat) (x : ascii) (l : buffer) :
  sub s a b = x :: l -> char_at s a = Some x.
Proof.
  unfold sub. intros H. rewrite char_at_skipn.
  destruct (skipn a s) as [|y l']; [rewrite firstn_nil in H; discriminate|].
  destruct (b - a); simpl in H; [discriminate|]. inversion H. reflexivity.
Qed.

Lemma separator_from_blanks (s : buffer) (i a b : nat) (t0 : tok)
      (rest : list span) :
  a < b ->
  forallb blank_char (sub s a b) = true ->
  word_at s b = true ->
  separator_claim s i (Span i a t0 :: Span a b Whitespace :: rest).
Proof.
  intros Hab Hblank Hword.
  exists (Span i a t0), (Span a b Whitespace), rest.
  repeat split; try assumption.
  - unfold text. cbn [start stop]. symmetry.
    unfold word_at in Hword.
    destruct (char_at s b) as [x|] eqn:Hx; [|discriminate].
    apply (run_exact s space_char a b x); [lia | | exact Hx |].
    + apply forallb_blank_space. exact Hblank.
    + apply word_not_space. exact Hword.
  - apply blank_no_lf. exact Hblank.
Qed.

Lemma modifier_rule_separator (s : buffer) (kw : buffer) (i j : nat)
      (spans : list span) :
  try_rule s i (modifier_rule kw) = Some (spans, j) ->
  separator_claim s i spans
  /\ existsb (same LF) (run space_char (skipn (i + length kw) s)) = false.
Proof.
  intros Ht. apply modifier_rule_anatomy in Ht.
  destruct Ht as (m0 & m1 & m2 & m3 & m5 & sfx & -> & _ & Hlt & Hblank & Hf).
  assert (Hw : word_at s m0 = true) by (unfold decl_facts in Hf; tauto).
  assert (Hsep := separator_from_blanks
                    s i (i + length kw) m0 Keyword_Token
                    (decl_spans m0 m1 m2 m3 m5 j sfx) Hlt Hblank Hw).
  split; [exact Hsep|].
  destruct Hsep as (x0 & x1 & rest & E & _ & _ & _ & _ & Hrun & _ & Hlf).
  inversion E; subst x0 x1 rest. cbn [start] in Hrun.
  rewrite <- Hrun. exact Hlf.
Qed.

Lemma custom_uniform_rule_separator (s : buffer) (i j : nat)
      (spans : list span) :
  try_rule s i custom_uniform_rule = Some (spans, j) ->
  separator_claim s i spans
  /\ existsb (same LF) (run space_char (skipn (i + 6) s)) = false.
Proof.
  intros Ht. apply custom_uniform_rule_anatomy in Ht.
  destruct Ht as (m0 & n0 & m1 & m2 & m3 & m5 & sfx & -> & _ & Hlt & Hblank
                  & Hun & _).
  assert (Hw : word_at s m0 = true).
  { apply sub_head in Hun. unfold word_at. rewrite Hun. reflexivity. }
  assert (Hsep := separator_from_blanks
                    s i (i + 6) m0 Keyword_Token
                    (Span m0 (m0 + 7) Keyword_Token
                     :: Span (m0 + 7) n0 Whitespace
                     :: decl_spans n0 m1 m2 m3 m5 j sfx) Hlt Hblank Hw).
  split; [exact Hsep|].
  destruct Hsep as (x0 & x1 & rest & E & _ & _ & _ & _ & Hrun & _ & Hlf).
  inversion E; subst x0 x1 rest. cbn [start] in Hrun.
  rewrite <- Hrun. exact Hlf.
Qed.

Lemma bare_type_rule_separator (s : buffer) (i j : nat) (spans : list span) :
  try_rule s i bare_type_rule = Some (spans, j) -> separator_claim s i spans.
Proof.
  intros Ht. apply bare_type_rule_anatomy in Ht.
  destruct Ht as (m1 & m2 & m3 & m5 & sfx & -> & Hf).
  unfold decl_facts in Hf.
  apply separator_from_blanks; tauto.
Qed.

Lemma not_false_none {A} (x : option A) (b : bool) :
  (forall y, x = Some y -> b = false) -> b = true -> x = None.
Proof.
  intros H Hb. destruct x as [y|]; [|reflexivity].
  rewrite (H y eq_refl) in Hb. discriminate.
Qed.

Lemma sub_length (s : buffer) (a b : nat) :
  b <= length s -> length (sub s a b) = b - a.
Proof.
  intros Hb. unfold sub. rewrite length_firstn, length_skipn. lia.
Qed.

(** The word at the cursor, when it is followed by a character that is
    not a word character. *)
Lemma word_run_exact (s : buffer) (i m : nat) (x : ascii) :
  i <= m ->
  forallb word_char (sub s i m) = true ->
  char_at s m = Some x -> word_char x = false ->
  word_run s i = sub s i m /\ i + length (word_run s i) = m.
Proof.
  intros Him Hall Hx Hw.
  assert (Hrun : word_run s i = sub s i m)
    by (apply (run_exact s word_char i m x); assumption).
  split; [exact Hrun|]. rewrite Hrun, sub_length; [lia|].
  apply char_at_lt in Hx. lia.
Qed.

Lemma blank_not_word (a : ascii) : blank_char a = true -> word_char a = false.
Proof.
  unfold blank_char. intros H. apply orb_prop in H.
  destruct H as [H|H]; apply same_eq in H; subst a; reflexivity.
Qed.

(** The first character of a non-empty stretch. *)
Lemma sub_first (s : buffer) (p : ascii -> bool) (a b : nat) :
  a < b -> b <= length s -> forallb p (sub s a b) = true ->
  exists x, char_at s a = Some x /\ p x = true.
Proof.
  intros Hab Hb Hall.
  destruct (char_at s a) as [x|] eqn:Hx.
  - exists x. split; [reflexivity|].
    rewrite (sub_cons s a b x Hx Hab) in Hall. simpl in Hall.
    apply andb_prop in Hall. tauto.
  - apply nth_error_None in Hx. lia.
Qed.

(** The type of a declaration: word characters, and possibly a pair of
    brackets after them. *)
Lemma den_TYPE_text (s : buffer) (n i : nat) (c : caps) (j : nat) (c' : caps) :
  den s (_TYPE n) i c j c' ->
  exists m,
    i < m
    /\ forallb word_char (sub s i m) = true
    /\ (j = m \/ (j = m + 2 /\ char_at s m = Some "["%char)).
Proof.
  intros (c0 & H & _). apply den_seq_inv in H.
  destruct H as (m & cm & Hw & Ho).
  apply den_plus_cls in Hw. destruct Hw as (_ & Hlt & Hall).
  exists m. split; [exact Hlt|]. split; [exact Hall|].
  destruct Ho as [Ho|Ho].
  - apply den_lit in Ho. destruct Ho as (-> & _ & Hsub).
    right. split; [reflexivity|]. eapply sub_head. exact Hsub.
  - destruct Ho as [-> _]. left. reflexivity.
Qed.

(** A line feed in the whitespace after the word at the cursor keeps
    the rules that start with a modifier from matching. *)
Lemma modifier_rule_newline (s : buffer) (kw : buffer) (i : nat) :
  forallb word_char kw = true ->
  existsb (same LF) (run space_char (skipn (i + length (word_run s i)) s))
  = true ->
  try_rule s i (modifier_rule kw) = None.
Proof.
  intros Hkw Hlf. apply (not_false_none _ _) with (2 := Hlf).
  intros [spans j] Ht.
  destruct (modifier_rule_separator s kw i j spans Ht) as (_ & Hsep).
  apply modifier_rule_anatomy in Ht.
  destruct Ht as (m0 & m1 & m2 & m3 & m5 & sfx & _ & Hsub & Hlt & Hblank & Hf).
  assert (Hm0 : m0 <= length s).
  { unfold decl_facts in Hf. destruct Hf as (? & ? & ? & ? & ? & _ & _ & _ & _ & He & _).
    apply char_at_lt in He. unfold suffix_end in *. destruct sfx; lia. }
  destruct (sub_first s blank_char (i + length kw) m0 Hlt Hm0 Hblank)
    as (x & Hx & Hbx).
  destruct (word_run_exact s i (i + length kw) x) as (_ & Hlen);
    [lia | rewrite Hsub; exact Hkw | exact Hx | apply blank_not_word; exact Hbx |].
  rewrite Hlen. exact Hsep.
Qed.

(** The same for the bare-type rule. *)
Lemma bare_type_rule_newline (s : buffer) (i : nat) :
  existsb (same LF) (run space_char (skipn (i + length (word_run s i)) s))
  = true ->
  try_rule s i bare_type_rule = None.
Proof.
  intros Hlf. apply (not_false_none _ _) with (2 := Hlf).
  intros [spans j] Ht. unfold try_rule in Ht.
  destruct (rexmatch s (fst bare_type_rule) i) as [[j' c]|] eqn:Hm;
    [|discriminate].
  clear Ht. apply rexmatch_sound in Hm.
  assert (Hi : i < length s) by (eapply den_inside; [exact Hm | cbn; lia]).
  change (fst bare_type_rule)
    with (_TYPE 1 >> Grp 2 (plus (Cls blank_char)) >> _BASE_ATTRIBUTE 3
          >> Grp 6 (star (Cls space_char)) >> Grp 7 (chr "=")) in Hm.
  apply den_seq_inv in Hm. destruct Hm as (m1 & c1 & Ht & Hm).
  assert (B1 : i + _ <= m1 <= length s)
    by (apply (den_bounds _ _ _ _ _ _ Ht); lia).
  apply den_TYPE_text in Ht. destruct Ht as (m & Hlt & Hword & Hend).
  apply den_seq_inv in Hm. destruct Hm as (m2 & c2 & Hw & Hm).
  assert (B2 : m1 + _ <= m2 <= length s)
    by (apply (den_bounds _ _ _ _ _ _ Hw); lia).
  apply den_grp_plus in Hw. destruct Hw as (Hlt2 & _ & Hblank).
  apply den_seq_inv in Hm. destruct Hm as (m4 & c4 & Ha & _).
  apply den_BASE_ATTRIBUTE in Ha; [|lia].
  destruct Ha as (m3 & sfx & _ & Hw2 & _).
  destruct (sub_first s blank_char m1 m2 Hlt2 (proj2 B2) Hblank)
    as (x & Hx & Hbx).
  destruct Hend as [->|[-> Hbr]].
  - destruct (word_run_exact s i m x) as (_ & Hlen);
      [lia | exact Hword | exact Hx | apply blank_not_word; exact Hbx |].
    rewrite Hlen.
    unfold word_at in Hw2. destruct (char_at s m2) as [y|] eqn:Hy; [|discriminate].
    rewrite (run_exact s space_char m m2 y);
      [apply blank_no_lf; exact Hblank | lia
       | apply forallb_blank_space; exact Hblank | exact Hy
       | apply word_not_space; exact Hw2].
  - destruct (word_run_exact s i m "["%char) as (_ & Hlen);
      [lia | exact Hword | exact Hbr | reflexivity |].
    rewrite Hlen, (run_skipn_stop s space_char m _ Hbr); reflexivity.
Qed.

(** A line feed in the whitespace after the word at the cursor keeps
    every composite rule from matching there. *)
Lemma composite_rules_newline (s : buffer) (i : nat) :
  existsb (same LF) (run space_char (skipn (i + length (word_run s i)) s))
  = true ->
  first_match s composite_rules i = None.
Proof.
  intros Hlf. unfold composite_rules. cbn [first_match].
  assert (H1 : try_rule s i custom_uniform_rule = None).
  { apply (not_false_none _ _) with (2 := Hlf). intros [spans j] Ht.
    destruct (custom_uniform_rule_separator s i j spans Ht) as (_ & Hsep).
    apply custom_uniform_rule_anatomy in Ht.
    destruct Ht as (m0 & n0 & m1 & m2 & m3 & m5 & sfx & _ & Hsub & Hlt & Hblank
                    & Hun & _).
    assert (Hm0 : m0 <= length s).
    { apply sub_head in Hun. apply char_at_lt in Hun. lia. }
    destruct (sub_first s blank_char (i + 6) m0 Hlt Hm0 Hblank)
      as (x & Hx & Hbx).
    destruct (word_run_exact s i (i + 6) x) as (_ & Hlen);
      [lia | rewrite Hsub; reflexivity | exact Hx
       | apply blank_not_word; exact Hbx |].
    rewrite Hlen. exact Hsep. }
  rewrite H1, custom_rule_modifier, uniform_rule_modifier.
  rewrite (modifier_rule_newline s (str "custom") i) by (reflexivity || exact Hlf).
  rewrite (modifier_rule_newline s (str "uniform") i) by (reflexivity || exact Hlf).
  rewrite (bare_type_rule_newline s i Hlf). reflexivity.
Qed.

(** C9, as amended: in every composite rule the separator after the
    first word of the declaration (after custom in the custom-uniform
    and custom rules, after uniform in the uniform rule, after the type
    in the bare-type rule) consists of spaces and tabs only.  Whenever a
    composite rule matches, the whole whitespace run after its first
    word is its second span, non-empty and without a line feed; so when
    the whitespace after the word at the cursor holds a line feed, no
    composite rule matches there.  Lexing then goes on with the later
    rules: after [custom] and a line feed the bare-type rule still
    matches the rest of the declaration, after a type and a line feed
    the remaining words are classified one by one. *)
Theorem C9_separator_blank (s : buffer) (r : rule) (i : nat) :
  In r composite_rules ->
  (forall spans j,
      try_rule s i r = Some (spans, j) -> separator_claim s i spans)
  /\ (existsb (same LF) (run space_char (skipn (i + length (word_run s i)) s))
      = true ->
      first_match s composite_rules i = None)
  /\ first_match (str "custom" ++ LF :: str "double a = 1") composite_rules 0
     = None
  /\ lex sample_vocabulary (str "custom" ++ LF :: str "double a = 1")
     = Some ([Span 0 6 Keyword_Tokens; Span 6 7 Text; Span 7 13 Keyword_Type;
              Span 13 14 Whitespace; Span 14 15 Name_Attribute;
              Span 15 16 Whitespace; Span 16 17 Operator; Span 17 18 Text;
              Span 18 19 Number], 5)
  /\ lex sample_vocabulary (str "double" ++ LF :: str "a = 1")
     = Some ([Span 0 6 Keyword_Type; Span 6 7 Text; Span 7 8 Generic;
              Span 8 9 Text; Span 9 10 Operator; Span 10 11 Text;
              Span 11 12 Number], 7).
Proof.
  intros Hr. split; [|split; [|split; [|split]]].
  - intros spans j Ht. destruct Hr as [<-|[<-|[<-|[<-|[]]]]].
    + apply (custom_uniform_rule_separator s i j spans Ht).
    + rewrite custom_rule_modifier in Ht.
      apply (modifier_rule_separator s _ i j spans Ht).
    + rewrite uniform_rule_modifier in Ht.
      apply (modifier_rule_separator s _ i j spans Ht).
    + apply (bare_type_rule_separator s i j spans Ht).
  - apply composite_rules_newline.
  - vm_compute. reflexivity.
  - vm_compute. reflexivity.
  - vm_compute. reflexivity.
Qed.

Lemma C9_separator_blank_witness :
  In bare_type_rule composite_rules
  /\ try_rule (str "double a = 1") 0 bare_type_rule
     = Some ([Span 0 6 Keyword_Type; Span 6 7 Whitespace;
              Span 7 8 Name_Attribute; Span 8 9 Whitespace;
              Span 9 10 Operator], 10)
  /\ separator_claim (str "double a = 1") 0
                     [Span 0 6 Keyword_Type; Span 6 7 Whitespace;
                      Span 7 8 Name_Attribute; Span 8 9 Whitespace;
                      Span 9 10 Operator]
  /\ first_match (str "double" ++ LF :: str "a = 1") composite_rules 0 = None.
Proof.
  split; [do 3 right; left; reflexivity|]. split; [reflexivity|].
  destruct (C9_separator_blank (str "double a = 1") bare_type_rule 0)
    as (H & _); [do 3 right; left; reflexivity|].
  split; [apply (H _ 10); reflexivity|].
  destruct (C9_separator_blank (str "double" ++ LF :: str "a = 1")
                               bare_type_rule 0)
    as (_ & Hnl & _); [do 3 right; left; reflexivity|].
  apply Hnl. reflexivity.
Defined.

(** The separator after uniform in the custom-uniform rule may hold a
    line feed, and after a line feed that follows custom the bare-type
    rule matches the rest of the declaration. *)
Lemma C9_newline_after_uniform :
  try_rule (str "custom uniform" ++ LF :: str "double a =") 0
           custom_uniform_rule
  = Some ([Span 0 6 Keyword_Token; Span 6 7 Whitespace; Span 7 14 Keyword_Token;
           Span 14 15 Whitespace; Span 15 21 Keyword_Type;
           Span 21 22 Whitespace; Span 22 23 Name_Attribute;
           Span 23 24 Whitespace; Span 24 25 Operator], 25)
  /\ sub (str "custom uniform" ++ LF :: str "double a =") 14 15 = [LF]
  /\ first_match (str "custom" ++ LF :: str "double a =") composite_rules 7
     = Some ([Span 7 13 Keyword_Type; Span 13 14 Whitespace;
              Span 14 15 Name_Attribute; Span 15 16 Whitespace;
              Span 16 17 Operator], 17).
Proof.
  repeat split; vm_compute; reflexivity.
Qed.

(** ** Total coverage (C1) *)













(** ** The fuel of a star is enough

    The iterations of a star are counted down from the number of
    characters left in the buffer.  More fuel never changes the result:
    every iteration consumes a character. *)

Section StarFuel.

Variable s : buffer.

Lemma star_loop_ext (body1 body2 : nat -> caps -> cont -> result)
      (greedy : bool) (k1 k2 : cont) :
  (forall i c ka kb,
      (forall j c', ka j c' = kb j c') -> body1 i c ka = body2 i c kb) ->
  (forall j c', k1 j c' = k2 j c') ->
  forall fuel i c,
    star_loop body1 greedy k1 fuel i c = star_loop body2 greedy k2 fuel i c.
Proof.
  intros Hbody Hk. induction fuel as [|fuel IH]; intros i c; simpl.
  - rewrite Hk. reflexivity.
  - rewrite Hk.
    rewrite (Hbody i c
               (fun j c' => if i <? j
                            then star_loop body1 greedy k1 fuel j c' else None)
               (fun j c' => if i <? j
                            then star_loop body2 greedy k2 fuel j c' else None)).
    + reflexivity.
    + intros j c'. destruct (i <? j); [apply IH | reflexivity].
Qed.


Lemma den_end (r : regex) :
  forall i c j c', den s r i c j c' -> length s <= i -> j = i.
Proof.
  induction r as [|p|r1 IH1 r2 IH2|r1 IH1 r2 IH2|g r1 IH1|n r1 IH1| | |];
    simpl; intros i c j c' H Hi.
  - tauto.
  - destruct H as ((a & Ha & _) & _). apply char_at_lt in Ha. lia.
  - destruct H as (m & cm & H1 & H2).
    apply IH1 in H1; [|exact Hi]. subst m. eauto.
  - destruct H as [H|H]; eauto.
  - induction H as [|i c m cm j c' Hd Hlt Hit IH]; [reflexivity|].
    apply IH1 in Hd; [lia | exact Hi].
  - destruct H as (c0 & H & _). eauto.
  - tauto.
  - tauto.
  - tauto.
Qed.




End StarFuel.

(** ** The lexer on further lines of the format *)

(** An array type is one type span, brackets included. *)
Example array_type_span :
  lex sample_vocabulary (str "float[]") = Some ([Span 0 7 Keyword_Type], 1).
Proof. vm_compute. reflexivity. Qed.

(** A line comment runs to the end of its line and leaves the line feed
    to the whitespace rule. *)
Example line_comment_span :
  lex sample_vocabulary (str "# hello world" ++ [LF])
  = Some ([Span 0 13 Comment_Single; Span 13 14 Text], 2).
Proof. vm_compute. reflexivity. Qed.

(** A triple-quoted string spans lines. *)
Example triple_quoted_span :
  lex sample_vocabulary
      ([QUOTE; QUOTE; QUOTE; "a"; LF; "b"; QUOTE; QUOTE; QUOTE]%char)
  = Some ([Span 0 9 String_], 1).
Proof. vm_compute. reflexivity. Qed.

(** A path reference, an asset reference and a character no rule
    matches. *)
Example path_asset_error_spans :
  lex sample_vocabulary (str "<../Foo/Bar.baz> @a.usd@ ?")
  = Some ([Span 0 16 Name_Namespace; Span 16 17 Text;
           Span 17 24 String_Interpol; Span 24 25 Text; Span 25 26 Error], 5).
Proof. vm_compute. reflexivity. Qed.

(** * The rules after the word lists

    The properties below cover the rules of lines 106 to 126 and what
    the table makes of a character that is no word character: the
    patterns are shown to match exactly what the scanners of the first
    part find, and an iteration at such a character is decided by the
    few rules that can begin with it. *)

(** A fact about every character, by the 256 cases. *)
Ltac each_char a H :=
  destruct a as [[] [] [] [] [] [] [] []]; vm_compute in H;
  try discriminate H; vm_compute; reflexivity.

Lemma composite_starts_word (a : ascii) :
  word_char a = false ->
  none_starts (composite_rules ++ [namespaced_rule]) a = true.
Proof. intros Hw. each_char a Hw. Qed.

(** At a character that is no word character the table reduces to the
    bracket rule and the rules after it. *)
Lemma first_match_nonword (v : vocabulary) (s : buffer) (i : nat) (a : ascii) :
  identifiers v = true ->
  char_at s i = Some a ->
  word_char a = false ->
  first_match s (root v) i = first_match s (punctuation_rule :: tail_rules) i.
Proof.
  intros Hv Ha Hw. rewrite (first_match_root v s i Hv).
  unfold reference, listed.
  assert (Hc := composite_starts_word a Hw).
  unfold none_starts in Hc.
  rewrite forallb_app in Hc. apply andb_prop in Hc. destruct Hc as [Hc Hn].
  rewrite (first_match_starts s composite_rules i a Ha Hc).
  rewrite (word_run_stop s i a Ha Hw).
  unfold identifiers in Hv.
  repeat (apply andb_prop in Hv; destruct Hv as [Hv ?]).
  repeat rewrite memb_identifier by (assumption || reflexivity).
  repeat rewrite andb_false_r. cbn [andb].
  assert (Ht : try_rule s i namespaced_rule = None).
  { apply (try_rule_starts s namespaced_rule i a Ha); [reflexivity|].
    cbn [forallb] in Hn. rewrite andb_true_r in Hn.
    apply andb_prop in Hn. destruct Hn as [_ Hn].
    apply negb_true_iff in Hn. exact Hn. }
  rewrite Ht. reflexivity.
Qed.

(** One rule of the table can begin with the character at the cursor. *)
Lemma step_one_candidate (v : vocabulary) (s : buffer) (i : nat) (a : ascii)
      (pre post : list rule) (r : rule) :
  identifiers v = true ->
  char_at s i = Some a ->
  word_char a = false ->
  punctuation_rule :: tail_rules = pre ++ r :: post ->
  none_starts pre a = true ->
  none_starts post a = true ->
  step (root v) s i
  = match try_rule s i r with
    | Some out => out
    | None => ([Span i (S i) Error], S i)
    end.
Proof.
  intros Hv Ha Hw Hsplit Hpre Hpost. unfold step.
  rewrite (first_match_nonword v s i a Hv Ha Hw), Hsplit, first_match_app.
  rewrite (first_match_starts s pre i a Ha Hpre). cbn [first_match].
  destruct (try_rule s i r); [reflexivity|].
  rewrite (first_match_starts s post i a Ha Hpost). reflexivity.
Qed.

Lemma try_rule_single (s : buffer) (r : regex) (t : tok) (i : nat) :
  try_rule s i (r, Single t) = token_to i t (end_of (rexmatch s r i)).
Proof.
  unfold try_rule. cbn [fst snd].
  destruct (rexmatch s r i) as [[j c]|]; reflexivity.
Qed.

(** ** Runs and the continuation after them *)

(** When the continuation refuses every proper prefix of the run, the
    greedy star hands it the whole run. *)
Lemma longest_last (k : cont) (c : caps) (l : buffer) :
  forall i, (forall n, n < length l -> k (i + n) c = None) ->
            longest k c i l = k (i + length l) c.
Proof.
  induction l as [|a l IH]; simpl; intros i H.
  - rewrite Nat.add_0_r. reflexivity.
  - rewrite IH.
    + replace (S i + length l) with (i + S (length l)) by lia.
      destruct (k (i + S (length l)) c) eqn:E; [reflexivity|].
      rewrite <- (Nat.add_0_r i). apply H. lia.
    + intros n Hn. replace (S i + n) with (i + S n) by lia. apply H. lia.
Qed.


Lemma char_in_run (s : buffer) (p : ascii -> bool) (j n : nat) :
  n < length (run p (skipn j s)) ->
  exists a, char_at s (j + n) = Some a /\ p a = true.
Proof.
  intros Hn. destruct (run_inside p (skipn j s) n Hn) as (a & Ha & Hp).
  rewrite nth_error_skipn in Ha. exists a. split; assumption.
Qed.

Lemma char_after_run (s : buffer) (p : ascii -> bool) (j : nat) :
  match char_at s (j + length (run p (skipn j s))) with
  | Some a => p a = false
  | None => True
  end.
Proof.
  unfold char_at. rewrite <- nth_error_skipn. apply run_stops.
Qed.

Lemma starts_with_char (s : buffer) (a : ascii) (m : nat) :
  starts_with [a] (skipn m s)
  = match char_at s m with
    | Some b => same a b
    | None => false
    end.
Proof.
  rewrite char_at_skipn. destruct (skipn m s) as [|b l]; simpl;
    [reflexivity | apply andb_true_r].
Qed.

Lemma run_every (l : buffer) : run (fun _ => true) l = l.
Proof. induction l as [|a l IH]; simpl; [|rewrite IH]; reflexivity. Qed.


(** ** The line comment (line 112) *)

Lemma shortest_eol_exact (s : buffer) (c : caps) (n : nat) :
  forall i, length s - i <= n ->
    shortest (at_eol s) c i (run dot_char (skipn i s))
    = Some (i + length (run dot_char (skipn i s)), c).
Proof.
  induction n as [|n IH]; intros i Hn.
  - assert (Ha : char_at s i = None) by (apply nth_error_None; lia).
    rewrite (run_skipn_end _ _ _ Ha). simpl. unfold at_eol, eol.
    rewrite Ha, Nat.add_0_r. reflexivity.
  - destruct (char_at s i) as [a|] eqn:Ha.
    + destruct (same LF a) eqn:Hlf.
      * assert (Hd : dot_char a = false)
          by (unfold dot_char; rewrite Hlf; reflexivity).
        rewrite (run_skipn_stop _ _ _ _ Ha Hd). simpl. unfold at_eol, eol.
        rewrite Ha, Hlf, Nat.add_0_r. reflexivity.
      * assert (Hd : dot_char a = true)
          by (unfold dot_char; rewrite Hlf; reflexivity).
        rewrite (run_skipn_char _ _ _ _ Ha Hd). cbn [shortest length].
        unfold at_eol at 1. unfold eol. rewrite Ha, Hlf.
        rewrite IH by lia.
        replace (i + S (length (run dot_char (skipn (S i) s))))
          with (S i + length (run dot_char (skipn (S i) s))) by lia.
        reflexivity.
    + rewrite (run_skipn_end _ _ _ Ha). simpl. unfold at_eol, eol.
      rewrite Ha, Nat.add_0_r. reflexivity.
Qed.

Lemma comment_rule_extent (s : buffer) (i : nat) :
  char_at s i = Some "#"%char ->
  try_rule s i comment_rule
  = Some ([Span i (S i + length (run dot_char (skipn (S i) s))) Comment_Single],
          S i + length (run dot_char (skipn (S i) s))).
Proof.
  intros Ha. unfold try_rule, rexmatch, comment_rule. cbn [fst snd].
  change (mt s (chr "#" >> lazy_star (Cls dot_char) >> Eol) i []
             (fun j c => Some (j, c)))
    with (mt s (chr "#") i []
             (fun j c => mt s (lazy_star (Cls dot_char)) j c (at_eol s))).
  cbn [chr mt]. rewrite Ha.
  change (same "#" "#") with true. cbv iota.
  rewrite mt_star_lazy.
  rewrite (shortest_eol_exact s [] (length s) (S i)) by lia.
  reflexivity.
Qed.

(** X1: a hash sign the cursor reaches starts a line comment.  The
    iteration emits one [Comment_Single] span from the hash sign to the
    end of the line: the span stops at the end of the buffer or before a
    line feed, and holds no line feed. *)
Theorem line_comment_extent (v : vocabulary) (s : buffer) (i : nat) :
  identifiers v = true ->
  char_at s i = Some "#"%char ->
  let j := S i + length (run dot_char (skipn (S i) s)) in
  step (root v) s i = ([Span i j Comment_Single], j)
  /\ eol s j = true
  /\ existsb (same LF) (sub s i j) = false.
Proof.
  intros Hv Ha j. split; [|split].
  - unfold step.
    rewrite (first_match_nonword v s i _ Hv Ha) by reflexivity.
    cbn [first_match tail_rules].
    assert (Hp : try_rule s i punctuation_rule = None).
    { apply (try_rule_starts s punctuation_rule i _ Ha); reflexivity. }
    rewrite Hp, (comment_rule_extent s i Ha). reflexivity.
  - unfold eol, char_at, j.
    rewrite <- nth_error_skipn.
    assert (H := run_stops dot_char (skipn (S i) s)).
    destruct (nth_error (skipn (S i) s) (length (run dot_char (skipn (S i) s))))
      as [b|]; [|reflexivity].
    unfold dot_char in H. apply negb_false_iff in H. exact H.
  - unfold sub, j.
    rewrite (skipn_char s i _ Ha).
    replace (S i + length (run dot_char (skipn (S i) s)) - i)
      with (S (length (run dot_char (skipn (S i) s)))) by lia.
    cbn [firstn existsb]. change (same LF "#") with false. cbn [orb].
    rewrite firstn_run.
    assert (H := run_all dot_char (skipn (S i) s)).
    induction (run dot_char (skipn (S i) s)) as [|b l IH]; [reflexivity|].
    cbn [forallb existsb] in *. apply andb_prop in H. destruct H as [Hb Hl].
    unfold dot_char in Hb. apply negb_true_iff in Hb. rewrite Hb. simpl.
    apply IH. exact Hl.
Qed.

Lemma line_comment_extent_witness :
  identifiers sample_vocabulary = true
  /\ char_at (str "a #b" ++ [LF; "c"%char]) 2 = Some "#"%char
  /\ step (root sample_vocabulary) (str "a #b" ++ [LF; "c"%char]) 2
     = ([Span 2 4 Comment_Single], 4)
  /\ eol (str "a #b" ++ [LF; "c"%char]) 4 = true
  /\ existsb (same LF) (sub (str "a #b" ++ [LF; "c"%char]) 2 4) = false.
Proof.
  split; [reflexivity|]. split; [reflexivity|].
  apply (line_comment_extent sample_vocabulary (str "a #b" ++ [LF; "c"%char]) 2);
    reflexivity.
Defined.

(** ** Whitespace (line 125) *)






(** ** The one-character rules (lines 110 and 113 to 115) *)

Lemma sign_not_word (a : ascii) (t : tok) :
  sign_token a = Some t -> word_char a = false.
Proof.
  intros H. destruct (word_char a) eqn:Hw; [|reflexivity]. exfalso.
  revert H. destruct a as [[] [] [] [] [] [] [] []]; vm_compute in Hw;
    try discriminate Hw; vm_compute; discriminate.
Qed.

(** X3: a bracket, a comma, a semicolon or an equals sign the cursor
    reaches is a span of its own, one character long: [Punctuation] for
    the brackets, [Generic] for the comma and the semicolon, [Operator]
    for the equals sign. *)
Theorem single_character_tokens (v : vocabulary) (s : buffer) (i : nat)
        (a : ascii) (t : tok) :
  identifiers v = true ->
  char_at s i = Some a ->
  sign_token a = Some t ->
  step (root v) s i = ([Span i (S i) t], S i).
Proof.
  intros Hv Ha Ht. unfold step.
  rewrite (first_match_nonword v s i a Hv Ha (sign_not_word a t Ht)).
  unfold sign_token in Ht.
  destruct (bracket_char a) eqn:Hb.
  - inversion Ht; subst t.
    cbn [first_match]. unfold try_rule at 1, rexmatch, punctuation_rule.
    cbn [fst snd mt]. rewrite Ha.
    unfold bracket_char in Hb. rewrite Hb. reflexivity.
  - assert (Hp : try_rule s i punctuation_rule = None).
    { unfold try_rule, rexmatch, punctuation_rule. cbn [fst snd mt].
      rewrite Ha. unfold bracket_char in Hb. rewrite Hb. reflexivity. }
    cbn [first_match]. rewrite Hp.
    destruct (same "," a) eqn:Hc; [|destruct (same ";" a) eqn:Hs];
      cbn [orb] in Ht.
    + apply same_eq in Hc. subst a. inversion Ht; subst t.
      change tail_rules with ([comment_rule] ++ comma_rule :: skipn 2 tail_rules).
      rewrite first_match_app.
      rewrite (first_match_starts s _ i _ Ha) by reflexivity.
      cbn [first_match]. unfold try_rule at 1, rexmatch, comma_rule.
      cbn [fst snd chr mt]. rewrite Ha. reflexivity.
    + apply same_eq in Hs. subst a. inversion Ht; subst t.
      change tail_rules
        with ([comment_rule; comma_rule] ++ semicolon_rule :: skipn 3 tail_rules).
      rewrite first_match_app.
      rewrite (first_match_starts s _ i _ Ha) by reflexivity.
      cbn [first_match]. unfold try_rule at 1, rexmatch, semicolon_rule.
      cbn [fst snd chr mt]. rewrite Ha. reflexivity.
    + destruct (same "=" a) eqn:He; [|discriminate].
      apply same_eq in He. subst a. inversion Ht; subst t.
      change tail_rules
        with ([comment_rule; comma_rule; semicolon_rule]
                ++ equals_rule :: skipn 4 tail_rules).
      rewrite first_match_app.
      rewrite (first_match_starts s _ i _ Ha) by reflexivity.
      cbn [first_match]. unfold try_rule at 1, rexmatch, equals_rule.
      cbn [fst snd chr mt]. rewrite Ha. reflexivity.
Qed.

Lemma single_character_tokens_witness :
  identifiers sample_vocabulary = true
  /\ char_at (str "a==(") 1 = Some "="%char
  /\ sign_token "=" = Some Operator
  /\ step (root sample_vocabulary) (str "a==(") 1 = ([Span 1 2 Operator], 2).
Proof.
  split; [reflexivity|]. split; [reflexivity|]. split; [reflexivity|].
  apply (single_character_tokens sample_vocabulary (str "a==(") 1 "="%char);
    reflexivity.
Defined.

(** ** Characters no rule begins with *)





(** ** Numbers (line 116) *)

Section NumberRule.

Variable s : buffer.

Lemma digits_plus (j : nat) (c : caps) :
  mt s (plus (Cls digit)) j c (fun j c => Some (j, c))
  = if 0 <? length (run digit (skipn j s))
    then Some (j + length (run digit (skipn j s)), c)
    else None.
Proof.
  rewrite mt_plus. destruct (run digit (skipn j s)) as [|a l]; [reflexivity|].
  rewrite (longest_all _ _ _ _ (S j + length l, c)) by reflexivity.
  cbn [length Nat.ltb Nat.leb]. do 2 f_equal. lia.
Qed.

Lemma digit_not_dot (a : ascii) : digit a = true -> same "." a = false.
Proof. intros H. each_char a H. Qed.

(** The part of the pattern after the sign. *)
Lemma digits_match (j : nat) (c : caps) :
  end_of (mt s (opt (Grp 1 (star (Cls digit) >> chr ".")) >> plus (Cls digit))
             j c (fun j c => Some (j, c)))
  = digits_end s j.
Proof.
  unfold digits_end.
  change (mt s (opt (Grp 1 (star (Cls digit) >> chr ".")) >> plus (Cls digit))
             j c (fun j c => Some (j, c)))
    with (match mt s (star (Cls digit)) j c
                   (fun m c' =>
                      mt s (chr ".") m c'
                         (fun j' c'' =>
                            mt s (plus (Cls digit)) j' ((1, (j, j')) :: c'')
                               (fun j c => Some (j, c))))
          with
          | Some res => Some res
          | None => mt s (plus (Cls digit)) j c (fun j c => Some (j, c))
          end).
  rewrite mt_star_greedy, longest_last.
  - set (m := j + length (run digit (skipn j s))).
    cbn [chr mt]. change (str ".") with ["."%char].
    rewrite starts_with_char.
    destruct (char_at s m) as [b|] eqn:Hb.
    + destruct (same "." b) eqn:Hd; cbn [andb].
      * rewrite digits_plus.
        destruct (0 <? length (run digit (skipn (S m) s))) eqn:Hf.
        -- reflexivity.
        -- rewrite digits_plus. fold m.
           destruct (length (run digit (skipn j s))) as [|n] eqn:Hn.
           ++ replace (j <? m) with false
                by (symmetry; apply Nat.ltb_ge; unfold m; lia).
              reflexivity.
           ++ replace (j <? m) with true
                by (symmetry; apply Nat.ltb_lt; unfold m; lia).
              reflexivity.
      * rewrite digits_plus. fold m.
        destruct (length (run digit (skipn j s))) as [|n] eqn:Hn.
        -- replace (j <? m) with false
             by (symmetry; apply Nat.ltb_ge; unfold m; lia).
           reflexivity.
        -- replace (j <? m) with true
             by (symmetry; apply Nat.ltb_lt; unfold m; lia).
           reflexivity.
    + rewrite digits_plus. fold m. cbn [andb].
      destruct (length (run digit (skipn j s))) as [|n] eqn:Hn.
      * replace (j <? m) with false
          by (symmetry; apply Nat.ltb_ge; unfold m; lia).
        reflexivity.
      * replace (j <? m) with true
          by (symmetry; apply Nat.ltb_lt; unfold m; lia).
        reflexivity.
  - intros n Hn. destruct (char_in_run s digit j n Hn) as (a & Ha & Hp).
    cbn [chr mt]. rewrite Ha, (digit_not_dot a Hp). reflexivity.
Qed.

Lemma digits_end_nondigit (j : nat) (a : ascii) :
  char_at s j = Some a -> digit a = false -> same "." a = false ->
  digits_end s j = None.
Proof.
  intros Ha Hd Hdot. unfold digits_end.
  rewrite (run_skipn_stop s digit j a Ha Hd). cbn [length].
  change (str ".") with ["."%char].
  rewrite Nat.add_0_r, starts_with_char, Ha, Hdot, Nat.ltb_irrefl.
  reflexivity.
Qed.

Lemma number_rule_end (i : nat) :
  end_of (rexmatch s (fst number_rule) i) = number_end s i.
Proof.
  unfold rexmatch, number_rule, number_end, after_sign. cbn [fst].
  set (rest := fun j c =>
                 mt s (opt (Grp 1 (star (Cls digit) >> chr "."))
                       >> plus (Cls digit)) j c (fun j c => Some (j, c))).
  change (mt s (opt (chr "-")
                >> opt (Grp 1 (star (Cls digit) >> chr "."))
                >> plus (Cls digit)) i [] (fun j c => Some (j, c)))
    with (match mt s (chr "-") i [] rest with
          | Some res => Some res
          | None => rest i []
          end).
  assert (Hrest : forall j c, end_of (rest j c) = digits_end s j)
    by (intros j c; apply digits_match).
  clearbody rest. cbn [chr mt].
  destruct (char_at s i) as [a|] eqn:Ha; [|apply Hrest].
  destruct (same "-" a) eqn:Hm; [|apply Hrest].
  apply same_eq in Hm. subst a.
  assert (H1 := Hrest (S i) []). assert (H0 := Hrest i []).
  rewrite (digits_end_nondigit i _ Ha) in H0 by reflexivity.
  destruct (rest (S i) []) as [res|].
  - exact H1.
  - rewrite <- H1. exact H0.
Qed.

End NumberRule.

(** X5: the number rule matches exactly what a scanner reads as an
    optional minus sign followed by digits, a dot and at least one digit,
    or else by at least one digit.  A dot that no digit follows is left
    out of the number, an exponent is never part of it, and a minus sign
    or a dot without a digit after it is no number. *)
Theorem number_rule_scan (s : buffer) (i : nat) :
  try_rule s i number_rule = token_to i Number (number_end s i).
Proof.
  change (try_rule s i number_rule)
    with (try_rule s i (fst number_rule, Single Number)).
  rewrite try_rule_single, number_rule_end. reflexivity.
Qed.

(** X6: a minus sign the cursor reaches starts a [Number] span when
    digits follow it, directly or after a dot; otherwise it is an [Error]
    span of one character. *)
Theorem minus_sign_number_or_error (v : vocabulary) (s : buffer) (i : nat) :
  identifiers v = true ->
  char_at s i = Some "-"%char ->
  step (root v) s i = token_or_error i Number (digits_end s (S i)).
Proof.
  intros Hv Ha.
  rewrite (step_one_candidate v s i "-"%char
             (punctuation_rule :: firstn 4 tail_rules) (skipn 5 tail_rules)
             number_rule Hv Ha)
    by reflexivity.
  change (try_rule s i number_rule)
    with (try_rule s i (fst number_rule, Single Number)).
  rewrite try_rule_single, number_rule_end.
  unfold number_end, after_sign. rewrite Ha.
  change (same "-" "-") with true. cbv iota.
  destruct (digits_end s (S i)); reflexivity.
Qed.

Lemma minus_sign_number_or_error_witness :
  identifiers sample_vocabulary = true
  /\ char_at (str "-.5 - 1") 0 = Some "-"%char
  /\ step (root sample_vocabulary) (str "-.5 - 1") 0 = ([Span 0 3 Number], 3).
Proof.
  split; [reflexivity|]. split; [reflexivity|].
  exact (minus_sign_number_or_error sample_vocabulary (str "-.5 - 1") 0
           eq_refl eq_refl).
Defined.



(** ** Triple-quoted strings (lines 117 and 118) *)

Section TripleRule.

Variable s : buffer.
Variable q : ascii.

(** The body of the lazy star, a character that is no line feed or a
    line feed, is any character. *)
Lemma any_char_body (i : nat) (c : caps) (ka kb : cont) :
  (forall j c', ka j c' = kb j c') ->
  mt s (Alt (Cls dot_char) (chr LF)) i c ka
  = mt s (Cls (fun _ => true)) i c kb.
Proof.
  intros Hk. cbn [mt chr]. destruct (char_at s i) as [a|]; [|reflexivity].
  unfold dot_char. rewrite <- Hk.
  destruct (same LF a); cbn [negb]; [reflexivity|].
  destruct (ka (S i) c); reflexivity.
Qed.

Lemma shortest_find (c : caps) (l : buffer) :
  forall j,
    skipn j s = l ->
    end_of (shortest (fun j c => mt s (lit [q; q; q]) j c
                                    (fun j c => Some (j, c))) c j l)
    = find_after [q; q; q] l j.
Proof.
  induction l as [|a l IH]; intros j Hs.
  - cbn [shortest find_after]. rewrite mt_lit, Hs.
    destruct (starts_with [q; q; q] []); reflexivity.
  - cbn [shortest find_after]. rewrite mt_lit, Hs.
    destruct (starts_with [q; q; q] (a :: l)); [reflexivity|].
    apply IH. apply skipn_cons_inv in Hs. tauto.
Qed.

Lemma triple_rule_end (i : nat) :
  end_of (rexmatch s (fst (triple_rule q)) i) = triple_end s q i.
Proof.
  unfold rexmatch, triple_rule, triple_end. cbn [fst].
  set (close := fun j c => mt s (lit [q; q; q]) j c (fun j c => Some (j, c))).
  change (mt s (lit [q; q; q] >> lazy_star (Alt (Cls dot_char) (chr LF))
                >> lit [q; q; q]) i [] (fun j c => Some (j, c)))
    with (mt s (lit [q; q; q]) i []
             (fun j c => mt s (lazy_star (Alt (Cls dot_char) (chr LF))) j c close)).
  rewrite mt_lit.
  destruct (starts_with [q; q; q] (skipn i s)); [|reflexivity].
  cbn [length].
  change (mt s (lazy_star (Alt (Cls dot_char) (chr LF))) (i + 3) [] close)
    with (star_loop (mt s (Alt (Cls dot_char) (chr LF))) false close
                    (length s - (i + 3)) (i + 3) []).
  rewrite (star_loop_ext (mt s (Alt (Cls dot_char) (chr LF)))
                         (mt s (Cls (fun _ => true))) false close close
                         any_char_body (fun _ _ => eq_refl)).
  rewrite star_loop_lazy by lia. rewrite run_every.
  apply shortest_find. reflexivity.
Qed.

End TripleRule.

(** X8: a triple-quoted string runs from three quotes to the first
    three quotes after them, whatever lies between, line feeds included;
    without three closing quotes in the rest of the buffer the rule does
    not match. *)
Theorem triple_quoted_first_close (s : buffer) (q : ascii) (i : nat) :
  try_rule s i (triple_rule q) = token_to i String_ (triple_end s q i).
Proof.
  change (try_rule s i (triple_rule q))
    with (try_rule s i (fst (triple_rule q), Single String_)).
  rewrite try_rule_single, triple_rule_end. reflexivity.
Qed.

(** ** One-line strings and asset references (lines 119, 120, 122) *)

Section QuotedScan.

Variable s : buffer.
Variable q : ascii.
Hypothesis q_not_lf : same LF q = false.

Lemma longest_closing (c : caps) (l : buffer) :
  forall j,
    (forall n, n < length l -> char_at s (j + n) = nth_error l n) ->
    closing s q (j + length l) c = None ->
    end_of (longest (closing s q) c j l) = last_after q l j.
Proof.
  induction l as [|a l IH]; intros j Hl Hend.
  - cbn [longest last_after]. cbn [length] in Hend.
    rewrite Nat.add_0_r in Hend. rewrite Hend. reflexivity.
  - cbn [longest last_after].
    assert (IH' : end_of (longest (closing s q) c (S j) l) = last_after q l (S j)).
    { apply IH.
      - intros n Hn. replace (S j + n) with (j + S n) by lia.
        rewrite Hl by (simpl; lia). reflexivity.
      - rewrite <- Hend. f_equal. simpl. lia. }
    destruct (longest (closing s q) c (S j) l) as [[j' c']|].
    + cbn [end_of] in IH'. rewrite <- IH'. reflexivity.
    + cbn [end_of] in IH'. rewrite <- IH'.
      rewrite closing_at.
      assert (Ha : char_at s j = Some a).
      { rewrite <- (Nat.add_0_r j). rewrite Hl by (simpl; lia). reflexivity. }
      rewrite Ha. destruct (same q a); reflexivity.
Qed.

Lemma closing_after_line (j : nat) (c : caps) :
  closing s q (j + length (run dot_char (skipn j s))) c = None.
Proof.
  rewrite closing_at.
  assert (H := char_after_run s dot_char j).
  destruct (char_at s (j + length (run dot_char (skipn j s)))) as [a|];
    [|reflexivity].
  unfold dot_char in H. apply negb_false_iff in H. apply same_eq in H.
  subst a. destruct (same q LF) eqn:E; [|reflexivity].
  apply same_eq in E. subst q. rewrite same_refl in q_not_lf. discriminate.
Qed.

Lemma quoted_regex_end (i : nat) :
  end_of (rexmatch s (chr q >> star (Cls dot_char) >> chr q) i)
  = quoted_end s q i.
Proof.
  unfold rexmatch, quoted_end.
  change (mt s (chr q >> star (Cls dot_char) >> chr q) i []
             (fun j c => Some (j, c)))
    with (mt s (chr q) i []
             (fun j c => mt s (star (Cls dot_char)) j c (closing s q))).
  cbn [chr mt]. destruct (char_at s i) as [a|]; [|reflexivity].
  destruct (same q a); [|reflexivity].
  rewrite mt_star_greedy. apply longest_closing.
  - intros n Hn. unfold char_at. rewrite <- nth_error_skipn.
    apply run_nth. exact Hn.
  - apply closing_after_line.
Qed.

End QuotedScan.

(** X9: the two one-line string rules and the asset-reference rule
    match from their delimiter to the last such delimiter on the same
    line: the match never goes past a line feed, and when the line holds
    no second delimiter the rule does not match. *)
Theorem quoted_rules_scan (s : buffer) (i : nat) :
  try_rule s i (quoted_rule QUOTE) = token_to i String_ (quoted_end s QUOTE i)
  /\ try_rule s i (quoted_rule DQUOTE) = token_to i String_ (quoted_end s DQUOTE i)
  /\ try_rule s i interpol_rule
     = token_to i String_Interpol (quoted_end s "@" i).
Proof.
  split; [|split].
  - unfold quoted_rule. rewrite try_rule_single, quoted_regex_end; reflexivity.
  - unfold quoted_rule. rewrite try_rule_single, quoted_regex_end; reflexivity.
  - unfold interpol_rule. rewrite try_rule_single, quoted_regex_end; reflexivity.
Qed.

Lemma quote_not_word (q : ascii) :
  q = QUOTE \/ q = DQUOTE -> word_char q = false.
Proof. intros [->| ->]; reflexivity. Qed.

(** X10: a quote the cursor reaches starts a [String_] span: the
    triple-quoted string when the buffer continues with two more quotes
    and three quotes close it later, else the one-line string up to the
    last quote of the line.  When neither is there, the quote is an
    [Error] span of one character. *)
Theorem quote_string_or_error (v : vocabulary) (s : buffer) (i : nat)
        (q : ascii) :
  identifiers v = true ->
  char_at s i = Some q ->
  q = QUOTE \/ q = DQUOTE ->
  step (root v) s i = token_or_error i String_ (string_end s q i).
Proof.
  intros Hv Ha Hq. unfold step.
  rewrite (first_match_nonword v s i q Hv Ha (quote_not_word q Hq)).
  change (punctuation_rule :: tail_rules)
    with ((punctuation_rule :: firstn 5 tail_rules)
            ++ [triple_rule QUOTE; triple_rule DQUOTE;
                quoted_rule QUOTE; quoted_rule DQUOTE]
            ++ skipn 9 tail_rules).
  repeat rewrite first_match_app.
  assert (Hpre : first_match s (punctuation_rule :: firstn 5 tail_rules) i = None)
    by (apply (first_match_starts s _ i q Ha); destruct Hq as [->| ->]; reflexivity).
  assert (Hpost : first_match s (skipn 9 tail_rules) i = None)
    by (apply (first_match_starts s _ i q Ha); destruct Hq as [->| ->]; reflexivity).
  rewrite Hpre, Hpost. cbn [first_match]. unfold string_end.
  destruct Hq as [->| ->].
  - assert (H1 : try_rule s i (triple_rule DQUOTE) = None)
      by (apply (try_rule_starts s _ i _ Ha); reflexivity).
    assert (H2 : try_rule s i (quoted_rule DQUOTE) = None)
      by (apply (try_rule_starts s _ i _ Ha); reflexivity).
    rewrite H1, H2.
    change (try_rule s i (triple_rule QUOTE))
      with (try_rule s i (fst (triple_rule QUOTE), Single String_)).
    change (try_rule s i (quoted_rule QUOTE))
      with (try_rule s i (chr QUOTE >> star (Cls dot_char) >> chr QUOTE,
                          Single String_)).
    rewrite !try_rule_single, triple_rule_end.
    rewrite (quoted_regex_end s QUOTE eq_refl).
    destruct (triple_end s QUOTE i); [reflexivity|].
    destruct (quoted_end s QUOTE i); reflexivity.
  - assert (H1 : try_rule s i (triple_rule QUOTE) = None)
      by (apply (try_rule_starts s _ i _ Ha); reflexivity).
    assert (H2 : try_rule s i (quoted_rule QUOTE) = None)
      by (apply (try_rule_starts s _ i _ Ha); reflexivity).
    rewrite H1, H2.
    change (try_rule s i (triple_rule DQUOTE))
      with (try_rule s i (fst (triple_rule DQUOTE), Single String_)).
    change (try_rule s i (quoted_rule DQUOTE))
      with (try_rule s i (chr DQUOTE >> star (Cls dot_char) >> chr DQUOTE,
                          Single String_)).
    rewrite !try_rule_single, triple_rule_end.
    rewrite (quoted_regex_end s DQUOTE eq_refl).
    destruct (triple_end s DQUOTE i); [reflexivity|].
    destruct (quoted_end s DQUOTE i); reflexivity.
Qed.

Lemma quote_string_or_error_witness :
  identifiers sample_vocabulary = true
  /\ char_at two_strings_line 8 = Some QUOTE
  /\ (QUOTE = QUOTE \/ QUOTE = DQUOTE)
  /\ step (root sample_vocabulary) two_strings_line 8 = ([Span 8 9 Error], 9).
Proof.
  split; [reflexivity|]. split; [reflexivity|]. split; [left; reflexivity|].
  exact (quote_string_or_error sample_vocabulary two_strings_line 8 QUOTE
           eq_refl eq_refl (or_introl eq_refl)).
Defined.

(** X11: an at sign the cursor reaches starts a [String_Interpol] span
    up to the last at sign of the line; when the line holds no second at
    sign it is an [Error] span of one character. *)
Theorem at_sign_asset_or_error (v : vocabulary) (s : buffer) (i : nat) :
  identifiers v = true ->
  char_at s i = Some "@"%char ->
  step (root v) s i
  = token_or_error i String_Interpol
      (last_after "@" (run dot_char (skipn (S i) s)) (S i)).
Proof.
  intros Hv Ha.
  rewrite (step_one_candidate v s i "@"%char
             (punctuation_rule :: firstn 10 tail_rules) (skipn 11 tail_rules)
             interpol_rule Hv Ha)
    by reflexivity.
  unfold interpol_rule.
  rewrite try_rule_single, (quoted_regex_end s "@" eq_refl).
  unfold quoted_end. rewrite Ha. change (same "@" "@") with true. cbv iota.
  destruct (last_after "@" (run dot_char (skipn (S i) s)) (S i)); reflexivity.
Qed.

Lemma at_sign_asset_or_error_witness :
  identifiers sample_vocabulary = true
  /\ char_at (str "@a@b@ c") 0 = Some "@"%char
  /\ step (root sample_vocabulary) (str "@a@b@ c") 0
     = ([Span 0 5 String_Interpol], 5).
Proof.
  split; [reflexivity|]. split; [reflexivity|].
  exact (at_sign_asset_or_error sample_vocabulary (str "@a@b@ c") 0
           eq_refl eq_refl).
Defined.

(** ** Angle-bracketed paths (line 121) *)





Lemma word_is_ns (a : ascii) : word_char a = true -> ns_char a = true.
Proof. unfold ns_char. intros ->. reflexivity. Qed.


Section NamespaceRule.

Variable s : buffer.






End NamespaceRule.




(** ** Rules that never decide (lines 123 and 124) *)

(** A rule that consumes a character does not match at or after the end
    of the buffer. *)
Lemma try_rule_end (s : buffer) (r : rule) (i : nat) :
  length s <= i -> (1 <=? min_len (fst r)) = true -> try_rule s i r = None.
Proof.
  intros Hi Hmin. unfold try_rule.
  destruct (rexmatch s (fst r) i) as [[j c]|] eqn:Hm; [|reflexivity].
  apply rexmatch_sound in Hm. apply Nat.leb_le in Hmin.
  assert (Hj := den_end s _ _ _ _ _ Hm Hi). subst j.
  exfalso.
  assert (Hzero : forall r1 c1 c2, den s r1 i c1 i c2 -> min_len r1 = 0).
  { induction r1 as [|p|r1 IH1 r2 IH2|r1 IH1 r2 IH2|g r1 IH1|n r1 IH1| | |];
      simpl; intros c1 c2 H; try reflexivity.
    - destruct H as ((a & Ha & _) & _). apply char_at_lt in Ha. lia.
    - destruct H as (m & cm & H1 & H2).
      assert (m = i) by (apply (den_end s _ _ _ _ _ H1); lia). subst m.
      rewrite (IH1 _ _ H1), (IH2 _ _ H2). reflexivity.
    - destruct H as [H|H].
      + rewrite (IH1 _ _ H). reflexivity.
      + rewrite (IH2 _ _ H). apply Nat.min_0_r.
    - destruct H as (c0 & H & _). eauto. }
  rewrite (Hzero _ _ _ Hm) in Hmin. lia.
Qed.

(** Wherever the rule of line 123 matches, so does the bracket rule,
    which precedes it in the table. *)
Lemma doc_rule_shadowed (s : buffer) (i : nat) :
  try_rule s i punctuation_rule = None -> try_rule s i doc_rule = None.
Proof.
  intros Hp.
  destruct (char_at s i) as [a|] eqn:Ha.
  - destruct (same "(" a) eqn:Hs.
    + exfalso. revert Hp. unfold try_rule, rexmatch, punctuation_rule.
      cbn [fst snd mt]. rewrite Ha, Hs. discriminate.
    + apply (try_rule_starts s doc_rule i a Ha); [reflexivity|].
      cbn. rewrite Hs. reflexivity.
  - apply try_rule_end; [|reflexivity].
    apply nth_error_None. exact Ha.
Qed.

Lemma first_match_cons_none (s : buffer) (r : rule) (rs : list rule) (i : nat) :
  first_match s (r :: rs) i = None ->
  try_rule s i r = None /\ first_match s rs i = None.
Proof.
  cbn [first_match]. destruct (try_rule s i r); [discriminate | tauto].
Qed.

Lemma root_working (v : vocabulary) (s : buffer) (i : nat) :
  first_match s (root v) i = first_match s (working_rules v) i.
Proof.
  unfold root, working_rules.
  change tail_rules
    with (firstn 11 tail_rules
            ++ doc_rule :: hashbang_rule :: skipn 13 tail_rules) at 1.
  repeat rewrite first_match_app.
  destruct (first_match s [punctuation_rule] i) eqn:Hp.
  - reflexivity.
  - destruct (first_match s (firstn 11 tail_rules) i) eqn:Hf; [reflexivity|].
    apply first_match_cons_none in Hp. destruct Hp as [Hp _].
    apply first_match_cons_none in Hf. destruct Hf as [Hc _].
    cbn [first_match].
    rewrite (doc_rule_shadowed s i Hp), (hashbang_rule_shadowed s i Hc).
    reflexivity.
Qed.

(** Tables that agree on the first match at every offset yield the same
    token stream. *)
Lemma lex_loop_rules (rs1 rs2 : list rule) (s : buffer) :
  (forall i, first_match s rs1 i = first_match s rs2 i) ->
  forall fuel i, lex_loop rs1 s fuel i = lex_loop rs2 s fuel i.
Proof.
  intros H. induction fuel as [|fuel IH]; intros i; simpl; [reflexivity|].
  destruct (length s <=? i); [reflexivity|].
  unfold step. rewrite H.
  destruct (match first_match s rs2 i with
            | Some out => out
            | None => ([Span i (S i) Error], S i)
            end) as [spans j].
  rewrite IH. reflexivity.
Qed.

(** X14: the rule of line 123 and the rule of line 124 never decide an
    iteration: the bracket rule matches wherever the former does and the
    line-comment rule wherever the latter does, and both precede them.
    Every iteration, and so every token stream, is the one of the table
    without the two rules. *)
Theorem dead_rules (v : vocabulary) (s : buffer) (fuel i : nat) :
  step (root v) s i = step (working_rules v) s i
  /\ lex_loop (root v) s fuel i = lex_loop (working_rules v) s fuel i.
Proof.
  split.
  - unfold step. rewrite root_working. reflexivity.
  - apply lex_loop_rules. intros j. apply root_working.
Qed.

Lemma first_match_assigns (ok : tok -> bool) (s : buffer) (rs : list rule)
      (i j : nat) (spans : list span) :
  forallb (assigns ok) rs = true ->
  first_match s rs i = Some (spans, j) ->
  forall x, In x spans -> ok (cat x) = true.
Proof.
  induction rs as [|r rs IH]; simpl; intros Hok H x Hx; [discriminate|].
  apply andb_prop in Hok. destruct Hok as [Hr Hrs].
  unfold try_rule in H.
  destruct (rexmatch s (fst r) i) as [[j' c]|].
  - inversion H; subst. apply emit_cats in Hx.
    unfold assigns in Hr. rewrite forallb_forall in Hr. apply Hr. exact Hx.
  - eapply IH; eauto.
Qed.

Lemma lex_loop_assigns (ok : tok -> bool) (rs : list rule) (s : buffer) :
  forallb (assigns ok) rs = true ->
  ok Error = true ->
  forall fuel i spans n,
    lex_loop rs s fuel i = Some (spans, n) ->
    forall x, In x spans -> ok (cat x) = true.
Proof.
  intros Hrs Herr.
  induction fuel as [|fuel IH]; simpl; intros i spans n H x Hx.
  - destruct (length s <=? i); [|discriminate].
    inversion H; subst. contradiction.
  - destruct (length s <=? i).
    + inversion H; subst. contradiction.
    + unfold step in H.
      destruct (first_match s rs i) as [[sp j]|] eqn:Hf.
      * destruct (lex_loop rs s fuel j) as [[rest m]|] eqn:Hl; [|discriminate].
        inversion H; subst. apply in_app_or in Hx. destruct Hx as [Hx|Hx].
        -- eapply first_match_assigns; eauto.
        -- eapply IH; eauto.
      * destruct (lex_loop rs s fuel (S i)) as [[rest m]|] eqn:Hl;
          [|discriminate].
        inversion H; subst. destruct Hx as [<-|Hx]; [exact Herr|].
        eapply IH; eauto.
Qed.

Lemma keywords_assigns (ok : tok -> bool) (ws : list buffer) (t : tok) :
  ok t = true -> forallb (assigns ok) (_keywords ws t) = true.
Proof. intros H. unfold _keywords, assigns. simpl. rewrite H. reflexivity. Qed.

Lemma arrays_assigns (ok : tok -> bool) (ws : list buffer) :
  ok Keyword_Type = true -> forallb (assigns ok) (map array_rule ws) = true.
Proof.
  intros H. induction ws as [|w ws IH]; simpl; [reflexivity|].
  unfold assigns at 1. simpl. rewrite H, IH. reflexivity.
Qed.

Lemma working_rules_assigns (v : vocabulary) :
  forallb (assigns (fun t => negb (dead_category t))) (working_rules v) = true.
Proof.
  unfold working_rules. repeat rewrite forallb_app.
  repeat rewrite keywords_assigns by reflexivity.
  rewrite arrays_assigns by reflexivity. reflexivity.
Qed.

(** X15: no span of any token stream carries the category of line 123
    or the category of line 124, for any vocabulary and any buffer: a
    parenthesised string is lexed as a bracket, a string and a
    bracket. *)
Theorem dead_categories (v : vocabulary) (s : buffer) (spans : list span)
        (n : nat) (x : span) :
  lex v s = Some (spans, n) ->
  In x spans ->
  cat x <> String_Doc /\ cat x <> Comment_Hashbang.
Proof.
  unfold lex. intros H Hx.
  rewrite (lex_loop_rules (root v) (working_rules v) s (root_working v s)) in H.
  assert (Hok := lex_loop_assigns (fun t => negb (dead_category t))
                   (working_rules v) s (working_rules_assigns v) eq_refl
                   _ _ _ _ H x Hx).
  cbv beta in Hok. split; intros E; rewrite E in Hok; discriminate.
Qed.

Lemma dead_categories_witness :
  lex sample_vocabulary doc_comment_line
  = Some ([Span 0 1 Punctuation; Span 1 4 String_; Span 4 5 Punctuation], 3)
  /\ In (Span 1 4 String_)
        [Span 0 1 Punctuation; Span 1 4 String_; Span 4 5 Punctuation]
  /\ cat (Span 1 4 String_) <> String_Doc
  /\ cat (Span 1 4 String_) <> Comment_Hashbang.
Proof.
  split; [vm_compute; reflexivity|]. split; [simpl; tauto|].
  apply (dead_categories sample_vocabulary doc_comment_line
           [Span 0 1 Punctuation; Span 1 4 String_; Span 4 5 Punctuation] 3
           (Span 1 4 String_)).
  - vm_compute. reflexivity.
  - simpl. tauto.
Defined.

(** ** Where the error spans are *)









(** ** The text of a declaration (lines 20, 21 and 38 to 108) *)

Lemma memb_app (w : buffer) (l1 l2 : list buffer) :
  memb w (l1 ++ l2) = memb w l1 || memb w l2.
Proof. unfold memb. apply existsb_app. Qed.

Lemma word_end_unique (s : buffer) (i m : nat) (x : ascii) :
  i <= m ->
  forallb word_char (sub s i m) = true ->
  char_at s m = Some x -> word_char x = false ->
  m = i + length (word_run s i).
Proof.
  intros Him Hall Hx Hw.
  destruct (word_run_exact s i m x Him Hall Hx Hw) as [_ H]. lia.
Qed.

Lemma forallb_word_ns (l : buffer) :
  forallb word_char l = true -> forallb ns_char l = true.
Proof.
  induction l as [|a l IH]; simpl; intros H; [reflexivity|].
  apply andb_prop in H. destruct H as [Ha Hl].
  rewrite (word_is_ns a Ha), (IH Hl). reflexivity.
Qed.

Section NameText.

Variable s : buffer.

Lemma den_iter_colon_words (i : nat) (c : caps) (j : nat) (c' : caps) :
  iter (den s (chr ":" >> plus (Cls word_char))) i c j c' ->
  i <= j /\ forallb ns_char (sub s i j) = true.
Proof.
  intros H. induction H as [i c|i c m cm j c' Hd Hlt Hit IH].
  - rewrite sub_nil. auto.
  - apply den_seq_inv in Hd. destruct Hd as (i' & c1 & Hcolon & Hw).
    destruct Hcolon as ((b & Hb & Hs) & -> & ->).
    apply same_eq in Hs. subst b.
    apply den_plus_cls in Hw. destruct Hw as (_ & Hlt' & Hall).
    destruct IH as (Hle & Hrest). split; [lia|].
    rewrite <- (sub_app s i m j) by lia.
    rewrite forallb_app, Hrest, andb_true_r.
    rewrite (sub_cons s i m _ Hb) by lia. cbn [forallb].
    rewrite (forallb_word_ns _ Hall). reflexivity.
Qed.

Lemma den_BASE_ATTRIBUTE_name (n : nat) (i : nat) (c : caps) (j : nat)
      (c' : caps) :
  den s (_BASE_ATTRIBUTE n) i c j c' -> i <= length s ->
  exists m (sfx : bool),
    i < m
    /\ word_at s i = true
    /\ j = (if sfx then m + 12 else m)
    /\ (sfx = true ->
        sub s m (m + 1) = str "." /\ sub s (m + 1) (m + 12) = str "timeSamples")
    /\ c' = (if sfx
             then [(n + 2, (m + 1, m + 12)); (n + 1, (m, m + 1))]
             else []) ++ (n, (i, m)) :: c
    /\ forallb ns_char (sub s i m) = true.
Proof.
  intros H Hi.
  destruct (den_BASE_ATTRIBUTE s n i c j c' H Hi)
    as (m & sfx & Hlt & Hw & Hj & Hsfx & Hc).
  exists m, sfx. repeat (split; [assumption|]).
  unfold _BASE_ATTRIBUTE in H. apply den_seq_inv in H.
  destruct H as (m' & cm & H1 & H2).
  destruct H1 as (c0 & H1 & ->).
  assert (Hnc : c0 = c).
  { eapply no_groups_den; [|exact H1]. reflexivity. }
  subst c0.
  assert (E : m' = m).
  { assert (Hg : group n c' = Some (i, m')).
    { destruct H2 as [H2|H2].
      - apply den_seq_inv in H2. destruct H2 as (a & ca & Hdot & Hts).
        apply den_grp_chr in Hdot. destruct Hdot as (-> & _ & ->).
        apply den_grp_lit in Hts. destruct Hts as (_ & -> & _).
        cbn [group].
        replace (n =? n + 2) with false by (symmetry; apply Nat.eqb_neq; lia).
        replace (n =? n + 1) with false by (symmetry; apply Nat.eqb_neq; lia).
        rewrite Nat.eqb_refl. reflexivity.
      - destruct H2 as [_ ->]. cbn [group]. rewrite Nat.eqb_refl. reflexivity. }
    rewrite Hc in Hg. destruct sfx; cbn [app group] in Hg.
    - replace (n =? n + 2) with false in Hg
        by (symmetry; apply Nat.eqb_neq; lia).
      replace (n =? n + 1) with false in Hg
        by (symmetry; apply Nat.eqb_neq; lia).
      rewrite Nat.eqb_refl in Hg. inversion Hg. reflexivity.
    - rewrite Nat.eqb_refl in Hg. inversion Hg. reflexivity. }
  subst m'.
  apply den_seq_inv in H1. destruct H1 as (a & ca & Hword & Hit).
  apply den_plus_cls in Hword. destruct Hword as (_ & Hlta & Halla).
  apply den_iter_colon_words in Hit. destruct Hit as (Hle & Hallm).
  rewrite <- (sub_app s i a m) by lia.
  rewrite forallb_app, (forallb_word_ns _ Halla), Hallm. reflexivity.
Qed.

End NameText.

Lemma den_decl_tail_texts (s : buffer) (p : ascii -> bool) (n i : nat)
      (c : caps) (j : nat) (c' : caps) :
  den s (decl_tail p n) i c j c' -> i <= length s ->
  exists m1 m2 m3 m5 sfx,
    decl_facts s p i m1 m2 m3 m5 j sfx
    /\ c' = decl_caps n i m1 m2 m3 m5 j sfx c
    /\ decl_texts s i m1 m2 m3.
Proof.
  intros H Hi. unfold decl_tail in H.
  apply den_seq_inv in H. destruct H as (m1 & c1 & Ht & H).
  assert (B1 := den_bounds _ _ _ _ _ _ Ht Hi).
  assert (Htext := den_TYPE_text s _ _ _ _ _ Ht).
  apply den_TYPE in Ht; [|exact Hi]. destruct Ht as (Hlt1 & -> & Hw1).
  apply den_seq_inv in H. destruct H as (m2 & c2 & Hw & H).
  assert (B2 : m1 + _ <= m2 <= length s)
    by (apply (den_bounds _ _ _ _ _ _ Hw); lia).
  apply den_grp_plus in Hw. destruct Hw as (Hlt2 & -> & Hall2).
  apply den_seq_inv in H. destruct H as (m4 & c4 & Ha & H).
  assert (B4 : m2 + _ <= m4 <= length s)
    by (apply (den_bounds _ _ _ _ _ _ Ha); lia).
  apply den_BASE_ATTRIBUTE_name in Ha; [|lia].
  destruct Ha as (m3 & sfx & Hlt3 & Hw3 & -> & Hsfx & -> & Hname).
  apply den_seq_inv in H. destruct H as (m5 & c5 & Hs & He).
  apply den_grp_star in Hs. destruct Hs as (Hle5 & -> & Hall5).
  apply den_grp_chr in He. destruct He as (-> & Heq & ->).
  exists m1, m2, m3, m5, sfx. split; [|split].
  - unfold decl_facts, suffix_end. repeat split; try assumption; try lia;
      apply Hsfx; assumption.
  - unfold decl_caps, suffix_end. destruct sfx; reflexivity.
  - split; assumption.
Qed.

Section RuleTexts.

Variable s : buffer.



Lemma bare_type_rule_texts (i j : nat) (spans : list span) :
  try_rule s i bare_type_rule = Some (spans, j) ->
  exists m1 m2 m3 m5 sfx,
    spans = decl_spans i m1 m2 m3 m5 j sfx
    /\ decl_facts s blank_char i m1 m2 m3 m5 j sfx
    /\ decl_texts s i m1 m2 m3.
Proof.
  unfold try_rule. intros H.
  destruct (rexmatch s (fst bare_type_rule) i) as [[j' c]|] eqn:Hm;
    [|discriminate].
  inversion H; subst j' spans. clear H.
  apply rexmatch_sound in Hm.
  assert (Hi : i < length s) by (eapply den_inside; [exact Hm | cbn; lia]).
  change (fst bare_type_rule) with (decl_tail blank_char 1) in Hm.
  apply den_decl_tail_texts in Hm; [|lia].
  destruct Hm as (m1 & m2 & m3 & m5 & sfx & Hf & -> & Htx).
  exists m1, m2, m3, m5, sfx. split; [|split; assumption].
  unfold decl_caps, decl_spans, suffix_spans. destruct sfx; reflexivity.
Qed.


End RuleTexts.




Section ArrayType.

Variable s : buffer.
Variable i : nat.
Hypothesis bracket_follows :
  starts_with (str "[]") (skipn (i + length (word_run s i)) s) = true.

Lemma bracket_at_word_end :
  char_at s (i + length (word_run s i)) = Some "["%char.
Proof.
  rewrite char_at_skipn.
  destruct (skipn (i + length (word_run s i)) s) as [|a l]; [discriminate|].
  change (str "[]") with ["["; "]"]%char in bracket_follows.
  cbn [starts_with] in bracket_follows.
  apply andb_prop in bracket_follows. destruct bracket_follows as [H _].
  apply same_eq in H. subst a. reflexivity.
Qed.

Lemma no_blank_after_word (m : nat) (x : ascii) :
  i <= m -> forallb word_char (sub s i m) = true ->
  char_at s m = Some x -> blank_char x = true -> False.
Proof.
  intros Him Hall Hx Hb.
  assert (E := word_end_unique s i m x Him Hall Hx (blank_not_word x Hb)).
  subst m. rewrite bracket_at_word_end in Hx. inversion Hx; subst x.
  vm_compute in Hb. discriminate Hb.
Qed.

Lemma modifier_rule_none (kw : buffer) :
  forallb word_char kw = true -> try_rule s i (modifier_rule kw) = None.
Proof.
  intros Hkw.
  destruct (try_rule s i (modifier_rule kw)) as [[spans j]|] eqn:Ht;
    [|reflexivity].
  exfalso. apply modifier_rule_anatomy in Ht.
  destruct Ht as (m0 & m1 & m2 & m3 & m5 & sfx & _ & Hsub & Hlt & Hblank & Hf).
  assert (Hm0 : m0 <= length s).
  { unfold decl_facts in Hf. destruct Hf as (_ & _ & _ & _ & _ & Hw & _).
    unfold word_at in Hw. destruct (char_at s m0) as [y|] eqn:Hy; [|discriminate].
    apply char_at_lt in Hy. lia. }
  destruct (sub_first s blank_char (i + length kw) m0 Hlt Hm0 Hblank)
    as (x & Hx & Hb).
  apply (no_blank_after_word (i + length kw) x); try assumption; [lia|].
  rewrite Hsub. exact Hkw.
Qed.

Lemma custom_uniform_rule_none : try_rule s i custom_uniform_rule = None.
Proof.
  destruct (try_rule s i custom_uniform_rule) as [[spans j]|] eqn:Ht;
    [|reflexivity].
  exfalso. apply custom_uniform_rule_anatomy in Ht.
  destruct Ht as (m0 & n0 & m1 & m2 & m3 & m5 & sfx & _ & Hsub & Hlt & Hblank
                  & Hun & _).
  assert (Hm0 : m0 <= length s).
  { apply sub_head in Hun. apply char_at_lt in Hun. lia. }
  destruct (sub_first s blank_char (i + 6) m0 Hlt Hm0 Hblank) as (x & Hx & Hb).
  apply (no_blank_after_word (i + 6) x); try assumption; [lia|].
  rewrite Hsub. reflexivity.
Qed.

Lemma bare_type_rule_type (j : nat) (spans : list span) :
  try_rule s i bare_type_rule = Some (spans, j) ->
  exists rest,
    spans = Span i (i + length (word_run s i) + 2) Keyword_Type :: rest.
Proof.
  intros Ht. apply bare_type_rule_texts in Ht.
  destruct Ht as (m1 & m2 & m3 & m5 & sfx & -> & Hf & (m & Hlt & Hall & Hor) & _).
  assert (Hm1 : m1 = i + length (word_run s i) + 2).
  { unfold decl_facts in Hf.
    destruct Hf as (H1 & H2 & H3 & H4 & H5 & _ & Hw & Hblank & _).
    assert (Hm2 : m2 <= length s).
    { unfold word_at in Hw. destruct (char_at s m2) as [y|] eqn:Hy;
        [|discriminate]. apply char_at_lt in Hy. lia. }
    destruct (sub_first s blank_char m1 m2 H2 Hm2 Hblank) as (x & Hx & Hb).
    destruct Hor as [->|[-> Hbr]].
    - exfalso. apply (no_blank_after_word m x); try assumption. lia.
    - rewrite (word_end_unique s i m "["%char) by (lia || assumption || reflexivity).
      reflexivity. }
  subst m1. unfold decl_spans. eexists. reflexivity.
Qed.

Lemma namespaced_rule_none : try_rule s i namespaced_rule = None.
Proof.
  unfold try_rule.
  destruct (rexmatch s (fst namespaced_rule) i) as [[j c]|] eqn:Hm;
    [|reflexivity].
  exfalso. apply rexmatch_sound in Hm. cbn [fst namespaced_rule] in Hm.
  apply den_seq_inv in Hm. destruct Hm as (i' & c0 & (_ & -> & ->) & Hm).
  apply den_seq_inv in Hm. destruct Hm as (m & c1 & Hw & Hm).
  apply den_plus_cls in Hw. destruct Hw as (-> & Hlt & Hall).
  apply den_seq_inv in Hm. destruct Hm as (m' & c2 & Hcolon & _).
  destruct Hcolon as ((a & Ha & Hs) & _). apply same_eq in Hs. subst a.
  assert (E := word_end_unique s i m ":"%char (Nat.lt_le_incl _ _ Hlt) Hall Ha
                 eq_refl).
  subst m. rewrite bracket_at_word_end in Ha. discriminate.
Qed.

End ArrayType.

(** X18: where the word at the cursor is a listed type that is in none
    of the tables consulted before the array-of-type rules, and a pair of
    square brackets follows it, the iteration emits the word and the
    brackets as one [Keyword_Type] span, whether the array-of-type rule
    or the bare-type composite rule decides it. *)
Theorem array_type_one_span (v : vocabulary) (s : buffer) (i : nat) :
  identifiers v = true ->
  memb (word_run s i) (TYPES v) = true ->
  memb (word_run s i) (earlier_words v) = false ->
  starts_with (str "[]") (skipn (i + length (word_run s i)) s) = true ->
  exists rest j,
    step (root v) s i
    = (Span i (i + length (word_run s i) + 2) Keyword_Type :: rest, j).
Proof.
  intros Hv Ht He Hb. unfold step.
  rewrite (first_match_root v s i Hv). unfold reference.
  unfold earlier_words in He. repeat rewrite memb_app in He.
  repeat (apply orb_false_iff in He; destruct He as [? He]).
  cbn [composite_rules first_match].
  rewrite (custom_uniform_rule_none s i Hb).
  rewrite custom_rule_modifier, uniform_rule_modifier.
  rewrite !(modifier_rule_none s i Hb) by reflexivity.
  destruct (try_rule s i bare_type_rule) as [[spans j]|] eqn:Hbare.
  - destruct (bare_type_rule_type s i Hb j spans Hbare) as (rest & ->).
    exists rest, j. reflexivity.
  - unfold listed.
    repeat match goal with
           | H : memb _ _ = false |- _ => rewrite H
           end.
    rewrite !andb_false_r.
    rewrite (namespaced_rule_none s i Hb), Ht, Hb. cbn [andb].
    eexists. eexists. reflexivity.
Qed.

Lemma array_type_one_span_witness :
  identifiers sample_vocabulary = true
  /\ memb (word_run (str "float[] a") 0) (TYPES sample_vocabulary) = true
  /\ memb (word_run (str "float[] a") 0) (earlier_words sample_vocabulary) = false
  /\ starts_with (str "[]")
       (skipn (0 + length (word_run (str "float[] a") 0)) (str "float[] a")) = true
  /\ exists rest j,
      step (root sample_vocabulary) (str "float[] a") 0
      = (Span 0 (0 + length (word_run (str "float[] a") 0) + 2) Keyword_Type
           :: rest, j).
Proof.
  split; [reflexivity|]. split; [reflexivity|]. split; [reflexivity|].
  split; [reflexivity|].
  apply (array_type_one_span sample_vocabulary (str "float[] a") 0); reflexivity.
Defined.

(** ** Namespaced names (line 106) *)


Section NamespacedScan.

Variable s : buffer.



End NamespacedScan.


(** ** The table at a word *)


